(** * aio-aws: the AWS Batch job lifecycle engine

    A shallow embedding of [notes/aio_aws/aio_aws_batch.py]: the job record
    [AWSBatchJob], the TinyDB backed [AWSBatchDB], the [jobs_to_run] filter,
    the throttle-aware API adapters, the job waiter and the job manager.

    Python objects that the code mutates in place (the job, the database, the
    remote service) are threaded as an explicit state; exceptions are an
    explicit result; the two unbounded loops take fuel. *)

From Stdlib Require Import ZArith QArith Ascii String List Bool Lia.
From stdpp Require Import base option list strings gmap.

Local Open Scope string_scope.
Local Open Scope Z_scope.

(** ** Python values used by the module *)

(** Truthiness of an [Optional[str]]: [None] and the empty string are falsy.
    The code tests job ids and job names with [if job.job_id:]. *)
Definition truthy (o : option string) : bool :=
  match o with
  | None => false
  | Some s => negb (String.eqb s "")
  end.

(** A value of the [container_overrides] dictionary. *)
Inductive Override :=
| OStrs (l : list string)
| OStr (s : string)
| OInt (z : Z).

(** An entry of [depends_on]: [{'jobId': ..., ['type': ...]}]. *)
Record Dep := mkDep { dep_jobId : string; dep_type : option string }.

(** The response of [client.submit_job]; [HTTPStatusCode] is what
    [response_success] inspects. *)
Record SubmitResponse := mkSubmitResponse {
  resp_jobName : string;
  resp_jobId : string;
  resp_HTTPStatusCode : Z
}.

(** One entry of a [describe_jobs] response (class [AWSBatchJobDescription]
    lists the keys).  [statusReason] and the time stamps may be missing. *)
Record JobDesc := mkJobDesc {
  jobName : string;
  jobId : string;
  status : string;
  statusReason : option string;
  createdAt : option Z;
  startedAt : option Z;
  stoppedAt : option Z
}.

(** ** class AWSBatchJob

    The field [status] of the job is [job_status] here; [status] is the key
    of a job description. *)

Definition STATUSES : list string :=
  ["SUBMITTED"; "PENDING"; "RUNNABLE"; "STARTING"; "RUNNING"; "SUCCEEDED"; "FAILED"].

Record AWSBatchJob := mkJob {
  job_name : string;
  job_queue : string;
  job_definition : string;
  command : option (list string);
  depends_on : list Dep;
  container_overrides : gmap string Override;
  job_id : option string;
  job_status : option string;
  job_tries : list string;
  num_tries : Z;
  max_tries : Z;
  job_submission : option SubmitResponse;
  job_description : option JobDesc
}.

(** [s[:128]]: the first 128 characters.  A [str] is modelled by a
    [string] with one character for each of its code points, which are
    those that [ascii] has, the code points below 256. *)
Definition take128 (s : string) : string := String.substring 0 128 s.

(** [if self.command:] a list is truthy when it is not empty. *)
Definition command_truthy (c : option (list string)) : bool :=
  match c with
  | Some (_ :: _) => true
  | _ => false
  end.

(** The dataclass constructor followed by [__post_init__]; an argument that
    Python defaults to [None] is an [option] here. *)
Definition new_AWSBatchJob
    (a_job_name a_job_queue a_job_definition : string)
    (a_command : option (list string))
    (a_depends_on : option (list Dep))
    (a_container_overrides : option (gmap string Override))
    (a_job_id a_status : option string)
    (a_job_tries : option (list string))
    (a_num_tries a_max_tries : Z)
    (a_job_submission : option SubmitResponse)
    (a_job_description : option JobDesc) : AWSBatchJob :=
  let overrides := default ∅ a_container_overrides in
  {| job_name := take128 a_job_name;
     job_queue := a_job_queue;
     job_definition := a_job_definition;
     command := a_command;
     depends_on := default [] a_depends_on;
     container_overrides :=
       (if command_truthy a_command
        then <["command" := OStrs (default [] a_command)]> overrides
        else overrides);
     job_id := a_job_id;
     job_status := a_status;
     job_tries := default [] a_job_tries;
     num_tries := a_num_tries;
     max_tries := a_max_tries;
     job_submission := a_job_submission;
     job_description := a_job_description |}.

(** A job built with the default values of every optional field
    ([num_tries = 0], [max_tries = 4], no tries, no id). *)
Definition default_AWSBatchJob
    (a_job_name a_job_queue a_job_definition : string)
    (a_command : option (list string))
    (a_depends_on : option (list Dep))
    (a_container_overrides : option (gmap string Override)) : AWSBatchJob :=
  new_AWSBatchJob a_job_name a_job_queue a_job_definition a_command
    a_depends_on a_container_overrides None None None 0 4 None None.

(** Property [params]. *)
Record Params := mkParams {
  p_jobName : string;
  p_jobQueue : string;
  p_jobDefinition : string;
  p_containerOverrides : gmap string Override;
  p_dependsOn : list Dep
}.

Definition params (job : AWSBatchJob) : Params :=
  {| p_jobName := job_name job;
     p_jobQueue := job_queue job;
     p_jobDefinition := job_definition job;
     p_containerOverrides := container_overrides job;
     p_dependsOn := depends_on job |}.

(** Property [db_data]: the row that is persisted, one field per key. *)
Record Document := mkDocument {
  doc_job_id : option string;
  doc_job_name : string;
  doc_job_queue : string;
  doc_job_definition : string;
  doc_job_submission : option SubmitResponse;
  doc_job_description : option JobDesc;
  doc_container_overrides : gmap string Override;
  doc_command : option (list string);
  doc_depends_on : list Dep;
  doc_status : option string;
  doc_job_tries : list string;
  doc_num_tries : Z;
  doc_max_tries : Z
}.

Definition db_data (job : AWSBatchJob) : Document :=
  {| doc_job_id := job_id job;
     doc_job_name := job_name job;
     doc_job_queue := job_queue job;
     doc_job_definition := job_definition job;
     doc_job_submission := job_submission job;
     doc_job_description := job_description job;
     doc_container_overrides := container_overrides job;
     doc_command := command job;
     doc_depends_on := depends_on job;
     doc_status := job_status job;
     doc_job_tries := job_tries job;
     doc_num_tries := num_tries job;
     doc_max_tries := max_tries job |}.

(** The constructor applied to the keys of a stored row: a job rebuilt from
    the database. *)
Definition job_of_document (d : Document) : AWSBatchJob :=
  new_AWSBatchJob (doc_job_name d) (doc_job_queue d) (doc_job_definition d)
    (doc_command d) (Some (doc_depends_on d)) (Some (doc_container_overrides d))
    (doc_job_id d) (doc_status d) (Some (doc_job_tries d))
    (doc_num_tries d) (doc_max_tries d)
    (doc_job_submission d) (doc_job_description d).

(** Method [reset]. *)
Definition reset (job : AWSBatchJob) : AWSBatchJob :=
  {| job_name := job_name job;
     job_queue := job_queue job;
     job_definition := job_definition job;
     command := command job;
     depends_on := depends_on job;
     container_overrides := container_overrides job;
     job_id := None;
     job_status := None;
     job_tries := job_tries job;
     num_tries := num_tries job;
     max_tries := max_tries job;
     job_submission := None;
     job_description := None |}.

(** ** The times of a job *)

(** Reading the keys of the description of a job: a value, or the
    [KeyError] of a key that the description does not have. *)
Inductive Access (A : Type) :=
| Value (a : A)
| KeyError (key : string).
Arguments Value {A} a.
Arguments KeyError {A} key.

#[global] Instance Access_ret : MRet Access := @Value.
#[global] Instance Access_bind : MBind Access :=
  fun A B f m => match m with Value a => f a | KeyError key => KeyError key end.

(** [self.job_description[key]] when there is a description, [None] when
    there is none. *)
Definition stamp (key : string) (field : JobDesc -> option Z) (job : AWSBatchJob)
  : Access (option Z) :=
  match job_description job with
  | None => Value None
  | Some job_desc =>
      match field job_desc with
      | Some t => Value (Some t)
      | None => KeyError key
      end
  end.

(** Properties [created], [started], [stopped]. *)
Definition created : AWSBatchJob -> Access (option Z) := stamp "createdAt" createdAt.
Definition started : AWSBatchJob -> Access (option Z) := stamp "startedAt" startedAt.
Definition stopped : AWSBatchJob -> Access (option Z) := stamp "stoppedAt" stoppedAt.

(** Truthiness of an [Optional[int]]: [None] and [0] are falsy. *)
Definition int_truthy (o : option Z) : bool :=
  match o with
  | Some z => negb (z =? 0)
  | None => false
  end.

(** [if a and b: return a - b] *)
Definition difference (a b : option Z) : option Z :=
  match a, b with
  | Some x, Some y => if int_truthy a && int_truthy b then Some (x - y) else None
  | _, _ => None
  end.

(** Properties [elapsed], [runtime], [spinup]. *)
Definition elapsed (job : AWSBatchJob) : Access (option Z) :=
  a_created ← created job;
  a_stopped ← stopped job;
  mret (difference a_stopped a_created).

Definition runtime (job : AWSBatchJob) : Access (option Z) :=
  a_started ← started job;
  a_stopped ← stopped job;
  mret (difference a_stopped a_started).

Definition spinup (job : AWSBatchJob) : Access (option Z) :=
  a_created ← created job;
  a_started ← started job;
  mret (difference a_started a_created).

(** The test [job.job_id and job.status == "SUCCEEDED"]. *)
Definition status_is (o : option string) (s : string) : bool :=
  match o with
  | Some t => String.eqb t s
  | None => false
  end.

Definition succeeded (job : AWSBatchJob) : bool :=
  truthy (job_id job) && status_is (job_status job) "SUCCEEDED".

(** ** The TinyDB table behind [AWSBatchDB]

    [tinydb.TinyDB(file)] is a table of documents in insertion order, each
    with a numeric [doc_id]; a new document gets the id after the last one
    handed out.  Only the operations the module calls are modelled. *)

Record Table := mkTable {
  docs : list (nat * Document);
  last_id : nat
}.

Definition empty_table : Table := {| docs := []; last_id := 0 |}.

Definition Query := Document -> bool.

(** [Query().job_id == v] and [Query().job_name == v] *)
Definition query_job_id (v : option string) : Query :=
  fun d => bool_decide (doc_job_id d = v).
Definition query_job_name (v : string) : Query :=
  fun d => bool_decide (doc_job_name d = v).

Definition tdb_all (t : Table) : list (nat * Document) := docs t.

Definition tdb_search (cond : Query) (t : Table) : list (nat * Document) :=
  List.filter (fun r => cond (snd r)) (docs t).

Definition tdb_get (cond : Query) (t : Table) : option (nat * Document) :=
  List.find (fun r => cond (snd r)) (docs t).

Definition tdb_insert (d : Document) (t : Table) : Table * nat :=
  let i := S (last_id t) in
  ({| docs := docs t ++ [(i, d)]; last_id := i |}, i).

(** [update(fields, cond)]: every key of [fields] is written into each
    matching document; the rows of this table carry exactly the keys of
    [db_data], so a matching document becomes [fields]. *)
Definition update_row (fields : Document) (cond : Query) (r : nat * Document)
  : nat * Document :=
  if cond (snd r) then (fst r, fields) else r.

Definition tdb_update (fields : Document) (cond : Query) (t : Table)
  : Table * list nat :=
  ({| docs := List.map (update_row fields cond) (docs t);
      last_id := last_id t |},
   List.map fst (tdb_search cond t)).

Definition tdb_upsert (d : Document) (cond : Query) (t : Table)
  : Table * list nat :=
  let '(t', updated) := tdb_update d cond t in
  match updated with
  | [] => let '(t'', i) := tdb_insert d t in (t'', [i])
  | _ :: _ => (t', updated)
  end.

Definition tdb_remove (doc_ids : list nat) (t : Table) : Table :=
  {| docs := List.filter (fun r => negb (bool_decide (fst r ∈ doc_ids))) (docs t);
     last_id := last_id t |}.

(** ** class AWSBatchDB *)

Inductive Level := ERROR | WARNING.
Definition LogRecord : Type := Level * string.

Definition find_by_job_id (t : Table) (a_job_id : option string)
  : option (nat * Document) :=
  if truthy a_job_id then tdb_get (query_job_id a_job_id) t else None.

Definition find_by_job_name (t : Table) (a_job_name : string)
  : option (list (nat * Document)) :=
  if truthy (Some a_job_name)
  then Some (tdb_search (query_job_name a_job_name) t)
  else None.

Definition remove_by_job_id (t : Table) (a_job_id : option string)
  : Table * option (nat * Document) :=
  if truthy a_job_id then
    match find_by_job_id t a_job_id with
    | Some job => (tdb_remove [fst job] t, Some job)
    | None => (t, None)
    end
  else (t, None).

Definition remove_by_job_name (t : Table) (a_job_name : string)
  : Table * option (list (nat * Document)) :=
  if truthy (Some a_job_name) then
    match find_by_job_name t a_job_name with
    | Some (r :: rs) => (tdb_remove (List.map fst (r :: rs)) t, Some (r :: rs))
    | found => (t, found)
    end
  else (t, None).

(** [save]: the new table, the returned value (a list of [doc_id], or
    [None]) and what was logged. *)
Definition save (job : AWSBatchJob) (t : Table)
  : Table * option (list nat) * list LogRecord :=
  if truthy (job_id job) then
    let '(t', ids) := tdb_upsert (db_data job) (query_job_id (job_id job)) t in
    (t', Some ids, [])
  else (t, None, [(ERROR, "FAIL to save job without job_id")]).

Definition find_jobs_to_run (t : Table) : list AWSBatchJob :=
  let jobs := List.map (fun r => job_of_document (snd r)) (tdb_all t) in
  List.filter (fun job => negb (succeeded job)) jobs.

(** ** jobs_to_run *)

(** The first saved row of that name is a job that SUCCEEDED
    ([jobs_saved[0]]). *)
Definition saved_succeeded (t : Table) (job : AWSBatchJob) : bool :=
  match find_by_job_name t (job_name job) with
  | Some (job_data :: _) => succeeded (job_of_document (snd job_data))
  | _ => false
  end.

Fixpoint jobs_to_run (jobs : list AWSBatchJob) (jobs_db : Table)
  : list AWSBatchJob :=
  match jobs with
  | [] => []
  | job :: rest =>
      if saved_succeeded jobs_db job then jobs_to_run rest jobs_db
      else if succeeded job then jobs_to_run rest jobs_db
      else job :: jobs_to_run rest jobs_db
  end.

(** Modelled from the spec: [find_latest_job_name] is not in this module; the
    spec defines the latest row of a name as the one whose
    [job_description.createdAt] is maximal.  A row without a time stamp is
    older than any row with one, and among equals the first found wins. *)
Definition doc_created (d : Document) : option Z :=
  desc ← doc_job_description d; createdAt desc.

Definition created_lt (a b : option Z) : bool :=
  match a, b with
  | _, None => false
  | None, Some _ => true
  | Some x, Some y => x <? y
  end.

Fixpoint latest_of (best : nat * Document) (rows : list (nat * Document))
  : nat * Document :=
  match rows with
  | [] => best
  | r :: rs =>
      latest_of (if created_lt (doc_created (snd best)) (doc_created (snd r))
                 then r else best) rs
  end.

Definition find_latest_job_name (t : Table) (a_job_name : string)
  : option (nat * Document) :=
  match find_by_job_name t a_job_name with
  | Some (r :: rs) => Some (latest_of r rs)
  | _ => None
  end.

(** The latest stored row of the job's name is SUCCEEDED (the spec's
    condition for dropping a job). *)
Definition latest_succeeded (t : Table) (job : AWSBatchJob) : bool :=
  match find_latest_job_name t (job_name job) with
  | Some row => status_is (doc_status (snd row)) "SUCCEEDED"
  | None => false
  end.

(** ** Regular expressions: [re.match]

    [re.match(pattern, s)] succeeds when some prefix of [s] is in the
    language of the pattern; [.] is any character but a newline.  The
    matcher works by derivatives. *)

Inductive regex :=
| Void
| Eps
| Chr (c : ascii)
| Dot
| Cat (r1 r2 : regex)
| Alt (r1 r2 : regex)
| Star (r : regex).

Definition newline : ascii := "010"%char.

Fixpoint nullable (r : regex) : bool :=
  match r with
  | Void => false
  | Eps => true
  | Chr _ => false
  | Dot => false
  | Cat r1 r2 => nullable r1 && nullable r2
  | Alt r1 r2 => nullable r1 || nullable r2
  | Star _ => true
  end.

Fixpoint deriv (a : ascii) (r : regex) : regex :=
  match r with
  | Void => Void
  | Eps => Void
  | Chr c => if Ascii.eqb a c then Eps else Void
  | Dot => if Ascii.eqb a newline then Void else Eps
  | Cat r1 r2 =>
      if nullable r1
      then Alt (Cat (deriv a r1) r2) (deriv a r2)
      else Cat (deriv a r1) r2
  | Alt r1 r2 => Alt (deriv a r1) (deriv a r2)
  | Star r1 => Cat (deriv a r1) (Star r1)
  end.

Fixpoint re_match (r : regex) (s : string) : bool :=
  nullable r ||
  match s with
  | EmptyString => false
  | String a s' => re_match (deriv a r) s'
  end.

Fixpoint lit (s : string) : regex :=
  match s with
  | EmptyString => Eps
  | String c s' => Cat (Chr c) (lit s')
  end.

(** [r"Host EC2.*terminated"] *)
Definition spot_pattern : regex :=
  Cat (lit "Host EC2") (Cat (Star Dot) (lit "terminated")).

(** The language of a pattern. *)
Inductive matches : regex -> string -> Prop :=
| matches_eps : matches Eps ""
| matches_chr c : matches (Chr c) (String c "")
| matches_dot c : c <> newline -> matches Dot (String c "")
| matches_cat r1 r2 s1 s2 :
    matches r1 s1 -> matches r2 s2 -> matches (Cat r1 r2) (s1 ++ s2)
| matches_alt_l r1 r2 s : matches r1 s -> matches (Alt r1 r2) s
| matches_alt_r r1 r2 s : matches r2 s -> matches (Alt r1 r2) s
| matches_star_nil r : matches (Star r) ""
| matches_star_app r s1 s2 :
    matches r s1 -> matches (Star r) s2 -> matches (Star r) (s1 ++ s2).

(** No character of the string is a newline. *)
Fixpoint no_newline (s : string) : bool :=
  match s with
  | EmptyString => true
  | String c s' => negb (Ascii.eqb c newline) && no_newline s'
  end.

(** ** The remote service, the configuration and the engine state *)

(** A call of the client returns a response or raises
    [botocore.exceptions.ClientError] with [Error.Code]. *)
Inductive Reply (A : Type) :=
| Ok (a : A)
| Error (code : option string).
Arguments Ok {A} a.
Arguments Error {A} code.

Record TerminateResponse := mkTerminateResponse { term_HTTPStatusCode : Z }.

(** The client: what each call answers, as a function of the number of
    calls made before it and of its arguments. *)
Record Client := mkClient {
  submit_job : nat -> Params -> Reply SubmitResponse;
  describe_jobs : nat -> list (option string) -> Reply (list JobDesc);
  terminate_job : nat -> string -> string -> Reply TerminateResponse
}.

Record AWSBatchConfig := mkConfig {
  retries : Z;
  start_pause : Q;
  min_pause : Q;
  max_pause : Q;
  min_jitter : Q;
  max_jitter : Q
}.

Inductive Event :=
| SubmitJob (p : Params)
| DescribeJobs (jobs : list (option string))
| TerminateJob (a_job_id reason : string)
| Jitter (name : string) (lo hi : Q)
| Delay (name : string) (lo hi : Q)
| Log (level : Level) (msg : string).

Record State := mkState {
  st_job : AWSBatchJob;
  st_db : Table;
  st_calls : nat;
  st_trace : list Event
}.

Inductive exn :=
| ClientError (code : option string)
| RuntimeError (msg : string)
| TypeError (msg : string).

Inductive Result (A : Type) :=
| Return (a : A)
| Raise (e : exn)
| OutOfFuel.
Arguments Return {A} a.
Arguments Raise {A} e.
Arguments OutOfFuel {A}.

(** A coroutine of the engine: it runs on a state and ends with a value, an
    exception or no fuel, in a new state. *)
Definition M (A : Type) : Type := State -> Result A * State.

Definition m_ret {A} (a : A) : M A := fun s => (Return a, s).

Definition m_bind {A B} (f : A -> M B) (m : M A) : M B :=
  fun s =>
    match m s with
    | (Return a, s') => f a s'
    | (Raise e, s') => (Raise e, s')
    | (OutOfFuel, s') => (OutOfFuel, s')
    end.

#[global] Instance M_ret : MRet M := @m_ret.
#[global] Instance M_bind : MBind M := @m_bind.

Definition raise {A} (e : exn) : M A := fun s => (Raise e, s).
Definition out_of_fuel {A} : M A := fun s => (OutOfFuel, s).

(** [try: m except ...: handler] *)
Definition try_except {A} (m : M A) (handler : exn -> M A) : M A :=
  fun s =>
    match m s with
    | (Raise e, s') => handler e s'
    | r => r
    end.

Definition get_job : M AWSBatchJob := fun s => (Return (st_job s), s).

Definition set_job (job : AWSBatchJob) : M unit :=
  fun s => (Return tt,
            {| st_job := job; st_db := st_db s;
               st_calls := st_calls s; st_trace := st_trace s |}).

Definition set_db (t : Table) : M unit :=
  fun s => (Return tt,
            {| st_job := st_job s; st_db := t;
               st_calls := st_calls s; st_trace := st_trace s |}).

Definition emit (evs : list Event) : M unit :=
  fun s => (Return tt,
            {| st_job := st_job s; st_db := st_db s;
               st_calls := st_calls s; st_trace := st_trace s ++ evs |}).

(** A call of the client is recorded, and the call counter moves on; the
    value is the number of calls made before this one. *)
Definition api_call (ev : Event) : M nat :=
  fun s => (Return (st_calls s),
            {| st_job := st_job s; st_db := st_db s;
               st_calls := S (st_calls s); st_trace := st_trace s ++ [ev] |}).

(** [jitter] and [delay] of [aio_aws] sleep for a random time between the
    two bounds; the sleep is recorded. *)
Definition jitter (name : string) (lo hi : Q) : M unit := emit [Jitter name lo hi].
Definition delay (name : string) (lo hi : Q) : M unit := emit [Delay name lo hi].

Definition log (level : Level) (msg : string) : M unit := emit [Log level msg].

(** [jobs_db.save(job)] on the job and the database of the state. *)
Definition db_save : M unit :=
  fun s =>
    let '(t, _, logged) := save (st_job s) (st_db s) in
    (Return tt,
     {| st_job := st_job s; st_db := t; st_calls := st_calls s;
        st_trace := st_trace s ++ List.map (fun r => Log (fst r) (snd r)) logged |}).

Definition is_throttle (code : option string) : bool :=
  match code with
  | Some c => String.eqb c "TooManyRequestsException"
  | None => false
  end.

Definition str_in (s : string) (l : list string) : bool :=
  List.existsb (String.eqb s) l.

(** The job after a successful submission. *)
Definition submitted (job : AWSBatchJob) (response : SubmitResponse) : AWSBatchJob :=
  {| job_name := job_name job;
     job_queue := job_queue job;
     job_definition := job_definition job;
     command := command job;
     depends_on := depends_on job;
     container_overrides := container_overrides job;
     job_id := Some (resp_jobId response);
     job_status := job_status job;
     job_tries := job_tries job ++ [resp_jobId response];
     num_tries := num_tries job + 1;
     max_tries := max_tries job;
     job_submission := Some response;
     job_description := job_description job |}.

(** The job after the waiter has read a description of it. *)
Definition described (job : AWSBatchJob) (job_desc : JobDesc) : AWSBatchJob :=
  {| job_name := job_name job;
     job_queue := job_queue job;
     job_definition := job_definition job;
     command := command job;
     depends_on := depends_on job;
     container_overrides := container_overrides job;
     job_id := job_id job;
     job_status := Some (status job_desc);
     job_tries := job_tries job;
     num_tries := num_tries job;
     max_tries := max_tries job;
     job_submission := job_submission job;
     job_description := Some job_desc |}.

Definition parse_job_description (a_job_id : option string) (jobs : list JobDesc)
  : option JobDesc :=
  List.fold_left
    (fun job_desc job =>
       if bool_decide (Some (jobId job) = a_job_id) then Some job else job_desc)
    jobs None.

(** ** The adapters, the waiter and the manager *)

Section Engine.

(** [response_success] is imported from [aio_aws]; it is a test on the
    response of the service. *)
Variable response_success : SubmitResponse -> bool.
Variable client : Client.
Variable config : AWSBatchConfig.

(** The [while tries < config.retries] loop of [aio_batch_job_submit];
    the [else] of the loop raises. *)
Fixpoint submit_loop (fuel : nat) (tries : Z) : M SubmitResponse :=
  if tries <? retries config then
    match fuel with
    | O => out_of_fuel
    | S fuel' =>
        let tries := tries + 1 in
        job ← get_job;
        i ← api_call (SubmitJob (params job));
        match submit_job client i (params job) with
        | Ok response =>
            (if response_success response
             then set_job (submitted job response)
             else mret tt);;
            mret response
        | Error code =>
            if is_throttle code then
              (if tries <? retries config
               then jitter "batch-job-submit" (min_jitter config) (max_jitter config)
               else mret tt);;
              submit_loop fuel' tries
            else raise (ClientError code)
        end
    end
  else raise (RuntimeError "AWS Batch job submission exceeded retries").

Definition aio_batch_job_submit : M SubmitResponse :=
  submit_loop (Z.to_nat (retries config)) 0.

Fixpoint status_loop (jobs : list (option string)) (fuel : nat) (tries : Z)
  : M (list JobDesc) :=
  if tries <? retries config then
    match fuel with
    | O => out_of_fuel
    | S fuel' =>
        let tries := tries + 1 in
        i ← api_call (DescribeJobs jobs);
        match describe_jobs client i jobs with
        | Ok response => mret response
        | Error code =>
            if is_throttle code then
              (if tries <? retries config
               then jitter "batch-job-status" (min_jitter config) (max_jitter config)
               else mret tt);;
              status_loop jobs fuel' tries
            else raise (ClientError code)
        end
    end
  else raise (RuntimeError "AWS Batch job description exceeded retries").

Definition aio_batch_job_status (jobs : list (option string)) : M (list JobDesc) :=
  status_loop jobs (Z.to_nat (retries config)) 0.

Fixpoint terminate_loop (a_job_id reason : string) (fuel : nat) (tries : Z)
  : M TerminateResponse :=
  if tries <? retries config then
    match fuel with
    | O => out_of_fuel
    | S fuel' =>
        let tries := tries + 1 in
        i ← api_call (TerminateJob a_job_id reason);
        match terminate_job client i a_job_id reason with
        | Ok response => mret response
        | Error code =>
            if is_throttle code then
              (if tries <? retries config
               then jitter "batch-job-terminate" (min_jitter config) (max_jitter config)
               else mret tt);;
              terminate_loop a_job_id reason fuel' tries
            else raise (ClientError code)
        end
    end
  else raise (RuntimeError "AWS Batch job termination exceeded retries").

Definition aio_batch_job_terminate (a_job_id reason : string) : M TerminateResponse :=
  terminate_loop a_job_id reason (Z.to_nat (retries config)) 0.

(** The [while True] loop of [aio_batch_job_waiter]; [break] leaves the
    function, which then returns [None]. *)
Fixpoint waiter_loop (fuel : nat) (monitor_failures : Z) : M (option JobDesc) :=
  match fuel with
  | O => out_of_fuel
  | S fuel' =>
      job ← get_job;
      response ← aio_batch_job_status [job_id job];
      match parse_job_description (job_id job) response with
      | Some job_desc =>
          set_job (described job job_desc);;
          if str_in (status job_desc) ["FAILED"; "SUCCEEDED"]
          then mret (Some job_desc)
          else
            (if str_in (status job_desc) ["SUBMITTED"; "PENDING"; "RUNNABLE"]
             then delay (job_name job) (start_pause config) (start_pause config * 2)%Q
             else mret tt);;
            delay (job_name job) (min_pause config) (max_pause config);;
            waiter_loop fuel' monitor_failures
      | None =>
          log WARNING "AWS Batch job (%s:%s) has no description";;
          let monitor_failures := monitor_failures + 1 in
          if retries config <? monitor_failures then
            log ERROR "AWS Batch job (%s:%s) failed to monitor job";;
            mret None
          else
            delay (job_name job) (min_pause config) (max_pause config);;
            waiter_loop fuel' monitor_failures
      end
  end.

Definition aio_batch_job_waiter (fuel : nat) : M (option JobDesc) :=
  try_except (waiter_loop fuel 0)
    (fun err =>
       match err with
       | ClientError _ =>
           log ERROR "AWS Batch job (%s:%s) failed to monitor job";;
           raise err
       | _ => raise err
       end).

(** [job_desc["statusReason"]] matches the pattern of a SPOT failure; a
    missing key raises [KeyError], which the manager passes over. *)
Definition spot_failure (job_desc : JobDesc) : bool :=
  match statusReason job_desc with
  | Some reason => re_match spot_pattern reason
  | None => false
  end.

(** The first statement of the manager's loop: a job without an id is
    submitted and saved, a job with an id is taken as it is. *)
Definition submit_or_adopt : M unit :=
  job ← get_job;
  match job_id job with
  | None => aio_batch_job_submit;; db_save
  | Some _ => mret tt
  end.

(** The [while job.num_tries < job.max_tries] loop of
    [aio_batch_job_manager]; [wfuel] is the fuel of each wait. *)
Fixpoint aio_batch_job_manager (wfuel fuel : nat) : M (option JobDesc) :=
  job ← get_job;
  if num_tries job <? max_tries job then
    match fuel with
    | O => out_of_fuel
    | S fuel' =>
        submit_or_adopt;;
        job_desc ← aio_batch_job_waiter wfuel;
        db_save;;
        match job_desc with
        | None => raise (TypeError "'NoneType' object is not subscriptable")
        | Some desc =>
            if String.eqb (status desc) "SUCCEEDED" then mret (Some desc)
            else if String.eqb (status desc) "FAILED" then
              if spot_failure desc then
                log WARNING "AWS Batch job (%s:%s) SPOT failure, run retry.";;
                failed ← get_job;
                set_job (reset failed);;
                db_save;;
                aio_batch_job_manager wfuel fuel'
              else mret (Some desc)
            else aio_batch_job_manager wfuel fuel'
        end
    end
  else
    log WARNING "AWS Batch job (%s:%s) retries exceeded.";;
    mret None.

End Engine.

(** ** Concrete jobs, tables and services *)

(** A usual [response_success]: the HTTP status code is a 2xx. *)
Definition http_success (r : SubmitResponse) : bool :=
  (200 <=? resp_HTTPStatusCode r) && (resp_HTTPStatusCode r <? 300).

Definition config_of (n : Z) : AWSBatchConfig :=
  {| retries := n; start_pause := 30; min_pause := 10; max_pause := 30;
     min_jitter := 1; max_jitter := 10 |}.

(** One scripted answer of the service per call. *)
Inductive Scripted :=
| Throttled
| Failing (code : string)
| Submitted (a_job_id : string)
| Described (jobs : list JobDesc).

Definition scripted_client (script : list Scripted) : Client :=
  {| submit_job i p :=
       match nth_error script i with
       | Some (Submitted a_job_id) =>
           Ok {| resp_jobName := p_jobName p; resp_jobId := a_job_id;
                 resp_HTTPStatusCode := 200 |}
       | Some Throttled => Error (Some "TooManyRequestsException")
       | Some (Failing code) => Error (Some code)
       | _ => Error None
       end;
     describe_jobs i jobs :=
       match nth_error script i with
       | Some (Described l) => Ok l
       | Some Throttled => Error (Some "TooManyRequestsException")
       | Some (Failing code) => Error (Some code)
       | _ => Ok []
       end;
     terminate_job i a_job_id reason :=
       match nth_error script i with
       | Some Throttled => Error (Some "TooManyRequestsException")
       | Some (Failing code) => Error (Some code)
       | _ => Ok {| term_HTTPStatusCode := 200 |}
       end |}.

(** A service that throttles every call. *)
Definition throttling_client : Client :=
  {| submit_job _ _ := Error (Some "TooManyRequestsException");
     describe_jobs _ _ := Error (Some "TooManyRequestsException");
     terminate_job _ _ _ := Error (Some "TooManyRequestsException") |}.

Definition desc_of (a_job_id a_status : string) (reason : option string) (t : Z)
  : JobDesc :=
  {| jobName := "t-0000"; jobId := a_job_id; status := a_status;
     statusReason := reason; createdAt := Some t; startedAt := None;
     stoppedAt := None |}.

(** A fresh job, as the caller builds it. *)
Definition fresh_job : AWSBatchJob :=
  default_AWSBatchJob "t-0000" "batch-dev" "batch-dev" None None None.

(** The same job with an id, a status and the description of that status. *)
Definition job_with (a_job_id a_status : string) (t : Z) : AWSBatchJob :=
  new_AWSBatchJob "t-0000" "batch-dev" "batch-dev" None None None
    (Some a_job_id) (Some a_status) (Some [a_job_id]) 1 4 None
    (Some (desc_of a_job_id a_status None t)).

(** The same job with an id and nothing known of its status. *)
Definition submitted_job (a_job_id : string) : AWSBatchJob :=
  new_AWSBatchJob "t-0000" "batch-dev" "batch-dev" None None None
    (Some a_job_id) None (Some [a_job_id]) 1 4 None None.

Definition state_of (job : AWSBatchJob) (t : Table) : State :=
  {| st_job := job; st_db := t; st_calls := 0; st_trace := [] |}.

(** A table with a FAILED row and a later SUCCEEDED row of the same name. *)
Definition failed_then_succeeded : Table :=
  fst (fst (save (job_with "J5b" "SUCCEEDED" 105)
              (fst (fst (save (job_with "J5a" "FAILED" 100) empty_table))))).

(** The number of [submit_job] calls, of [describe_jobs] calls and of jitter
    sleeps in a trace. *)
Definition is_submit (e : Event) : bool :=
  match e with SubmitJob _ => true | _ => false end.
Definition is_describe (e : Event) : bool :=
  match e with DescribeJobs _ => true | _ => false end.
Definition is_terminate (e : Event) : bool :=
  match e with TerminateJob _ _ => true | _ => false end.
Definition is_jitter (e : Event) : bool :=
  match e with Jitter _ _ _ => true | _ => false end.

Definition count_events (p : Event -> bool) (tr : list Event) : nat :=
  length (List.filter p tr).

(** What the waiter sees at each poll: a description of the job, or none. *)
Definition is_miss (o : option JobDesc) : bool :=
  match o with None => true | Some _ => false end.

Definition count_misses (obs : list (option JobDesc)) : nat :=
  length (List.filter is_miss obs).

(** The longest run of polls in a row without a description. *)
Fixpoint longest_miss_run_from (run best : nat) (obs : list (option JobDesc)) : nat :=
  match obs with
  | [] => Nat.max run best
  | None :: rest => longest_miss_run_from (S run) best rest
  | Some _ :: rest => longest_miss_run_from 0 (Nat.max run best) rest
  end.

Definition longest_miss_run (obs : list (option JobDesc)) : nat :=
  longest_miss_run_from 0 0 obs.

(** The invariant of the tries of a job. *)
Definition tries_consistent (job : AWSBatchJob) : Prop :=
  num_tries job = Z.of_nat (length (job_tries job)).

(** The first row that [find_by_job_name] finds for the job is also the
    latest row of that name. *)
Definition first_is_latest (t : Table) (job : AWSBatchJob) : Prop :=
  match find_by_job_name t (job_name job) with
  | Some (r :: rs) => latest_of r rs = r
  | _ => True
  end.

(** Every row of the table has a job id, as rows written by [save] have. *)
Definition rows_have_id (t : Table) : Prop :=
  List.Forall (fun r => truthy (doc_job_id (snd r)) = true) (docs t).

(** The table after one [save] of a submitted job. *)
Definition saved_once : Table := fst (fst (save (submitted_job "J1") empty_table)).

(** The service throttles every call. *)
Definition always_throttles (client : Client) : Prop :=
  (forall i p, submit_job client i p = Error (Some "TooManyRequestsException")) /\
  (forall i jobs, describe_jobs client i jobs = Error (Some "TooManyRequestsException")) /\
  (forall i a_job_id reason,
     terminate_job client i a_job_id reason = Error (Some "TooManyRequestsException")).

(** The events of [n] throttled attempts: a call, and a jitter sleep before
    each further call. *)
Fixpoint throttled_events (call pause : Event) (n : nat) : list Event :=
  match n with
  | O => []
  | S n' =>
      call :: match n' with
              | O => []
              | S _ => pause :: throttled_events call pause n'
              end
  end.

(** From call number [start] on, the polls of job [a_job_id] are answered
    without an error, and what [parse_job_description] finds in the answers
    is [obs], in that order. *)
Definition polls (client : Client) (a_job_id : option string) (start : nat)
    (obs : list (option JobDesc)) : Prop :=
  forall k o, nth_error obs k = Some o ->
    exists response,
      describe_jobs client (start + k) [a_job_id] = Ok response /\
      parse_job_description a_job_id response = o.

(** No description in [obs] has a final status. *)
Definition pending (obs : list (option JobDesc)) : Prop :=
  forall job_desc, In (Some job_desc) obs ->
    str_in (status job_desc) ["FAILED"; "SUCCEEDED"] = false.

(** A trace goes on from another one. *)
Definition extends (s s' : State) : Prop :=
  exists evs : list Event, st_trace s' = (st_trace s ++ evs)%list.

(** The script and the observations of a waiter that misses, sees the job
    RUNNING, and misses again. *)
Definition miss_hit_miss : list Scripted :=
  [Described []; Described [desc_of "J1" "RUNNING" None 100]; Described []].

Definition miss_hit_miss_obs : list (option JobDesc) :=
  [None; Some (desc_of "J1" "RUNNING" None 100); None].

(** A relation between the state before and the state after holds along a
    coroutine. *)
Definition preserves (R : State -> State -> Prop) {A} (m : M A) : Prop :=
  forall s, R s (snd (m s)).

(** The outcome of an adapter on a service that throttles every call: the
    exception, [n] calls and [n - 1] jitter sleeps, nothing else changed. *)
Definition exceeds_retries {A} (run : M A) (msg : string) (is_call : Event -> bool)
    (n : Z) (s : State) : Prop :=
  exists evs,
    run s = (Raise (RuntimeError msg),
             {| st_job := st_job s; st_db := st_db s;
                st_calls := st_calls s + Z.to_nat n;
                st_trace := st_trace s ++ evs |}) /\
    Z.of_nat (count_events is_call evs) = n /\
    Z.of_nat (count_events is_jitter evs) = n - 1.

(** The invariant of the tries goes from one state to the other. *)
Definition keeps_tries (s s' : State) : Prop :=
  tries_consistent (st_job s) -> tries_consistent (st_job s').

(** What the waiter leaves as it is: the job but for its status and its
    description, the database and the submissions made. *)
Definition waits (s s' : State) : Prop :=
  reset (st_job s') = reset (st_job s) /\
  job_id (st_job s') = job_id (st_job s) /\
  st_db s' = st_db s /\
  count_events is_submit (st_trace s') = count_events is_submit (st_trace s).

(** A coroutine whose first event is [e]. *)
Definition starts_with {A} (e : Event) (m : M A) (s : State) : Prop :=
  exists rest, st_trace (snd (m s)) = (st_trace s ++ e :: rest)%list.

(** A job whose instance is reclaimed: the description of the failure, the
    answers of the service, and the state the manager starts from. *)
Definition spot_desc : JobDesc :=
  desc_of "J3a" "FAILED" (Some "Host EC2 (instance abc) terminated") 100.

Definition spot_script : list Scripted :=
  [Described [spot_desc]; Submitted "J3b";
   Described [desc_of "J3b" "SUCCEEDED" None 105]].

Definition spot_state : State := state_of (submitted_job "J3a") empty_table.

(** A job that fails because a job it depends on failed. *)
Definition dependent_desc : JobDesc :=
  desc_of "J4" "FAILED" (Some "Dependent Job failed") 100.

Definition dependent_script : list Scripted := [Described [dependent_desc]].

Definition dependent_state : State := state_of (submitted_job "J4") empty_table.

(** ** Tables as the database keeps them *)

(** The [doc_id] of the rows are distinct and none is after [last_id]; no
    two rows have the same job id; every row has a job id. *)
Definition well_kept (t : Table) : Prop :=
  List.NoDup (List.map fst (docs t)) /\
  List.Forall (fun r => (fst r <= last_id t)%nat) (docs t) /\
  List.NoDup (List.map (fun r => doc_job_id (snd r)) (docs t)) /\
  rows_have_id t.

(** The rows of the table that are not of a job id, or not of a job name. *)
Definition other_ids (a_job_id : option string) (t : Table) : list (nat * Document) :=
  List.filter (fun r => negb (query_job_id a_job_id (snd r))) (docs t).

Definition other_names (a_job_name : string) (t : Table) : list (nat * Document) :=
  List.filter (fun r => negb (query_job_name a_job_name (snd r))) (docs t).

(** A job whose description has the three time stamps. *)
Definition timed_job : AWSBatchJob :=
  new_AWSBatchJob "t-0000" "batch-dev" "batch-dev" None None None
    (Some "J1") (Some "SUCCEEDED") (Some ["J1"]) 1 4 None
    (Some {| jobName := "t-0000"; jobId := "J1"; status := "SUCCEEDED";
             statusReason := None; createdAt := Some 1000;
             startedAt := Some 1600; stoppedAt := Some 4000 |}).

(** ** Runs of the engine *)

(** The events of a call that is throttled [k] times and then answered: a
    jitter sleep after each throttled call. *)
Fixpoint retried_events (call pause : Event) (k : nat) : list Event :=
  match k with
  | O => [call]
  | S k' => call :: pause :: retried_events call pause k'
  end.

(** The first [k] calls from call number [start] on are throttled. *)
Definition throttled_until {A} (reply : nat -> Reply A) (start k : nat) : Prop :=
  forall i, (i < k)%nat ->
    exists code, reply (start + i)%nat = Error code /\ is_throttle code = true.

(** The state after [k + 1] calls, [k] of them throttled. *)
Definition after_retries (call pause : Event) (k : nat) (job : AWSBatchJob)
    (s : State) : State :=
  {| st_job := job; st_db := st_db s; st_calls := st_calls s + k + 1;
     st_trace := st_trace s ++ retried_events call pause k |}.

(** The id of a job is the last of its tries. *)
Definition last_try_is_id (job : AWSBatchJob) : Prop :=
  forall i, job_id job = Some i -> last (job_tries job) = Some i.

(** A job has not been tried more often than it may be. *)
Definition tries_bounded (job : AWSBatchJob) : Prop :=
  num_tries job <= max_tries job.

(** The events of one poll of the waiter that does not end the wait. *)
Definition poll_events (config : AWSBatchConfig) (job : AWSBatchJob)
    (o : option JobDesc) : list Event :=
  DescribeJobs [job_id job] ::
  match o with
  | Some job_desc =>
      (if str_in (status job_desc) ["SUBMITTED"; "PENDING"; "RUNNABLE"]
       then [Delay (job_name job) (start_pause config) (start_pause config * 2)%Q]
       else []) ++
      [Delay (job_name job) (min_pause config) (max_pause config)]
  | None =>
      [Log WARNING "AWS Batch job (%s:%s) has no description";
       Delay (job_name job) (min_pause config) (max_pause config)]
  end.

(** The job after the polls [obs]: the last description seen is recorded. *)
Definition polled (job : AWSBatchJob) (obs : list (option JobDesc)) : AWSBatchJob :=
  List.fold_left
    (fun j o => match o with Some job_desc => described j job_desc | None => j end)
    obs job.

(** A job that is submitted after two throttled calls and then runs to its
    end. *)
Definition throttled_script : list Scripted :=
  [Throttled; Throttled; Submitted "J6";
   Described [desc_of "J6" "RUNNABLE" None 100];
   Described [desc_of "J6" "RUNNING" None 100];
   Described [desc_of "J6" "SUCCEEDED" None 100]].

(** A job found RUNNABLE, then missed, then SUCCEEDED. *)
Definition recovery_script : list Scripted :=
  [Described [desc_of "J1" "RUNNABLE" None 100]; Described [];
   Described [desc_of "J1" "SUCCEEDED" None 100]].

Definition recovery_obs : list (option JobDesc) :=
  [Some (desc_of "J1" "RUNNABLE" None 100); None].

(** Two jobs that differ in their status and their description at most. *)
Definition same_but_description (job job' : AWSBatchJob) : Prop :=
  job' =
  {| job_name := job_name job;
     job_queue := job_queue job;
     job_definition := job_definition job;
     command := command job;
     depends_on := depends_on job;
     container_overrides := container_overrides job;
     job_id := job_id job;
     job_status := job_status job';
     job_tries := job_tries job;
     num_tries := num_tries job;
     max_tries := max_tries job;
     job_submission := job_submission job;
     job_description := job_description job' |}.

(** What a wait leaves as it is: the job but for its status and its
    description, the database, and the calls that submit or terminate. *)
Definition watches (s s' : State) : Prop :=
  same_but_description (st_job s) (st_job s') /\
  st_db s' = st_db s /\
  count_events is_submit (st_trace s') = count_events is_submit (st_trace s) /\
  count_events is_terminate (st_trace s') = count_events is_terminate (st_trace s).

(** The tries of a job along a run: the bound of the tries is kept, the
    tries do not go down, and they stay within the bound. *)
Definition bounds_tries (s s' : State) : Prop :=
  max_tries (st_job s') = max_tries (st_job s) /\
  num_tries (st_job s) <= num_tries (st_job s') /\
  (tries_bounded (st_job s) -> tries_bounded (st_job s')).

(** The id goes on being the last of the tries. *)
Definition keeps_last_try (s s' : State) : Prop :=
  last_try_is_id (st_job s) -> last_try_is_id (st_job s').

(** Along a run the parameters of the job stay the same, and every
    submission made carries them. *)
Definition same_submissions (s s' : State) : Prop :=
  params (st_job s') = params (st_job s) /\
  exists evs : list Event,
    st_trace s' = (st_trace s ++ evs)%list /\
    List.Forall (fun e => is_submit e = true -> e = SubmitJob (params (st_job s)))
      evs.

(** * Properties *)

(** ** jobs_to_run *)

Lemma jobs_to_run_filter jobs db :
  jobs_to_run jobs db =
  List.filter (fun job => negb (saved_succeeded db job) && negb (succeeded job)) jobs.
Proof.
  induction jobs as [|job rest IH]; simpl; [reflexivity|].
  destruct (saved_succeeded db job); simpl; [exact IH|].
  destruct (succeeded job); simpl; [exact IH|]. now rewrite IH.
Qed.

Lemma In_jobs_to_run jobs db job :
  In job (jobs_to_run jobs db) <->
  In job jobs /\ saved_succeeded db job = false /\ succeeded job = false.
Proof.
  rewrite jobs_to_run_filter, filter_In, andb_true_iff, !negb_true_iff. tauto.
Qed.

Lemma job_of_document_succeeded d :
  succeeded (job_of_document d) =
  truthy (doc_job_id d) && status_is (doc_status d) "SUCCEEDED".
Proof. reflexivity. Qed.

Lemma search_In cond t r :
  In r (tdb_search cond t) <-> In r (docs t) /\ cond (snd r) = true.
Proof. unfold tdb_search. apply filter_In. Qed.

Lemma saved_succeeded_latest db job :
  rows_have_id db -> first_is_latest db job ->
  saved_succeeded db job = latest_succeeded db job.
Proof.
  unfold rows_have_id, first_is_latest, saved_succeeded, latest_succeeded,
    find_latest_job_name.
  intros Hid Hfirst.
  destruct (find_by_job_name db (job_name job)) as [[|r rs]|] eqn:Hfind;
    try reflexivity.
  rewrite Hfirst, job_of_document_succeeded.
  assert (Hin : In r (docs db)).
  { unfold find_by_job_name in Hfind.
    destruct (truthy (Some (job_name job))); [|discriminate].
    injection Hfind as Hfind.
    apply (search_In (query_job_name (job_name job)) db r).
    rewrite Hfind. now left. }
  now rewrite (proj1 (List.Forall_forall _ _) Hid r Hin).
Qed.

(** C1 (amended): in a table whose rows all have a job id, and where the
    first row found for the job's name is the latest row of that name,
    [jobs_to_run] keeps an input job exactly when that latest row is not
    SUCCEEDED and the input itself is not a SUCCEEDED job with an id. *)
Theorem jobs_to_run_first_row jobs db job :
  rows_have_id db -> first_is_latest db job ->
  (In job (jobs_to_run jobs db) <->
   In job jobs /\ latest_succeeded db job = false /\ succeeded job = false).
Proof.
  intros Hid Hfirst.
  now rewrite In_jobs_to_run, (saved_succeeded_latest db job Hid Hfirst).
Qed.

Lemma jobs_to_run_first_row_witness :
  ~ In (job_with "J5a" "FAILED" 100)
      (jobs_to_run [job_with "J5a" "FAILED" 100]
         (fst (fst (save (job_with "J5b" "SUCCEEDED" 105) empty_table)))).
Proof.
  intros Hin.
  apply (jobs_to_run_first_row [job_with "J5a" "FAILED" 100]
           (fst (fst (save (job_with "J5b" "SUCCEEDED" 105) empty_table)))) in Hin.
  - destruct Hin as (_ & Hlatest & _). vm_compute in Hlatest. discriminate.
  - repeat constructor.
  - reflexivity.
Defined.

(** With an empty table no latest row is SUCCEEDED, and yet the input job,
    which has an id and the status SUCCEEDED, is dropped. *)
Lemma jobs_to_run_latest_counterexample :
  ~ (In (job_with "J1" "SUCCEEDED" 100)
        (jobs_to_run [job_with "J1" "SUCCEEDED" 100] empty_table) <->
     latest_succeeded empty_table (job_with "J1" "SUCCEEDED" 100) = false).
Proof.
  intros [_ H]. specialize (H eq_refl). vm_compute in H. exact H.
Qed.

(** The row that decides is the first one found, not the latest: a FAILED
    input is kept although a later row of its name is SUCCEEDED. *)
Lemma jobs_to_run_reads_first_row :
  latest_succeeded failed_then_succeeded (job_with "J5a" "FAILED" 100) = true /\
  jobs_to_run [job_with "J5a" "FAILED" 100] failed_then_succeeded
  = [job_with "J5a" "FAILED" 100].
Proof. split; reflexivity. Qed.

(** C10: an input job with an id and the status SUCCEEDED is dropped by
    [jobs_to_run] whatever the table holds, also when it holds no row of the
    job's name. *)
Theorem jobs_to_run_drops_succeeded_input jobs db job :
  truthy (job_id job) = true -> job_status job = Some "SUCCEEDED" ->
  ~ In job (jobs_to_run jobs db).
Proof.
  intros Hid Hst Hin. apply In_jobs_to_run in Hin as (_ & _ & Hs).
  unfold succeeded in Hs. rewrite Hid, Hst in Hs. discriminate.
Qed.

Lemma jobs_to_run_drops_succeeded_input_witness :
  find_by_job_name empty_table (job_name (job_with "J1" "SUCCEEDED" 100)) = Some [] /\
  ~ In (job_with "J1" "SUCCEEDED" 100)
      (jobs_to_run [fresh_job; job_with "J1" "SUCCEEDED" 100] empty_table).
Proof.
  split; [reflexivity|].
  apply (jobs_to_run_drops_succeeded_input
           [fresh_job; job_with "J1" "SUCCEEDED" 100] empty_table
           (job_with "J1" "SUCCEEDED" 100)); reflexivity.
Defined.

(** ** reset *)

(** C8: [reset] clears [job_id], [job_submission], [job_description] and
    [status], and leaves every other field of the job as it was. *)
Theorem reset_clears_and_preserves job :
  job_id (reset job) = None /\ job_submission (reset job) = None /\
  job_description (reset job) = None /\ job_status (reset job) = None /\
  job_name (reset job) = job_name job /\ job_tries (reset job) = job_tries job /\
  num_tries (reset job) = num_tries job /\ max_tries (reset job) = max_tries job /\
  job_queue (reset job) = job_queue job /\
  job_definition (reset job) = job_definition job /\
  command (reset job) = command job /\ depends_on (reset job) = depends_on job /\
  container_overrides (reset job) = container_overrides job.
Proof. repeat split. Qed.

(** ** save and find_by_job_id *)

Lemma find_hd_filter {A} (p : A -> bool) l :
  List.find p l = List.hd_error (List.filter p l).
Proof.
  induction l as [|x l IH]; simpl; [reflexivity|].
  destruct (p x); [reflexivity | exact IH].
Qed.

Lemma get_hd_search cond t : tdb_get cond t = List.hd_error (tdb_search cond t).
Proof. apply find_hd_filter. Qed.

Lemma query_job_id_db_data job : query_job_id (job_id job) (db_data job) = true.
Proof. unfold query_job_id. now apply bool_decide_eq_true_2. Qed.

Section Update.
Variable fields : Document.
Variable cond : Query.
Hypothesis cond_fields : cond fields = true.

Lemma filter_update l :
  List.filter (fun r => cond (snd r)) (List.map (update_row fields cond) l) =
  List.map (fun r => (fst r, fields)) (List.filter (fun r => cond (snd r)) l).
Proof.
  induction l as [|r l IH]; simpl; [reflexivity|].
  rewrite IH. unfold update_row.
  destruct (cond (snd r)) eqn:Hc; simpl.
  - now rewrite cond_fields.
  - now rewrite Hc.
Qed.

Lemma filter_update_others l :
  List.filter (fun r => negb (cond (snd r))) (List.map (update_row fields cond) l) =
  List.filter (fun r => negb (cond (snd r))) l.
Proof.
  induction l as [|r l IH]; simpl; [reflexivity|].
  rewrite IH. unfold update_row.
  destruct (cond (snd r)) eqn:Hc; simpl.
  - now rewrite cond_fields.
  - now rewrite Hc.
Qed.

Lemma update_fixed l :
  List.map (update_row fields cond) l = l <->
  List.Forall (fun r => snd r = fields) (List.filter (fun r => cond (snd r)) l).
Proof.
  induction l as [|r l IH]; simpl.
  - split; [constructor | reflexivity].
  - unfold update_row at 1. destruct (cond (snd r)) eqn:Hc.
    + split.
      * intros H. injection H as Hr Hl. constructor.
        -- now rewrite <- Hr at 1.
        -- now apply IH.
      * intros H. inversion H as [|? ? Hr Hl]; subst. f_equal.
        -- destruct r as [i d]. simpl in *. now subst.
        -- now apply IH.
    + split.
      * intros H. injection H as Hl. now apply IH.
      * intros H. f_equal. now apply IH.
Qed.
End Update.

Lemma map_fst_nil {A B} (l : list (A * B)) : List.map fst l = [] -> l = [].
Proof. now destruct l. Qed.

(** What [save] does to the table, what it returns and what it logs. *)
Lemma save_effect job db :
  let q := query_job_id (job_id job) in
  let db' := fst (fst (save job db)) in
  if truthy (job_id job) then
    (exists ids, save job db = (db', Some ids, []) /\ ids <> [] /\
       ids = List.map fst (tdb_search q db')) /\
    List.Forall (fun r => snd r = db_data job) (tdb_search q db') /\
    List.filter (fun r => negb (q (snd r))) (docs db') =
      List.filter (fun r => negb (q (snd r))) (docs db) /\
    (db' = db <->
     tdb_search q db <> [] /\
     List.Forall (fun r => snd r = db_data job) (tdb_search q db))
  else save job db = (db, None, [(ERROR, "FAIL to save job without job_id")]).
Proof.
  intros q db'. subst db'. unfold save.
  destruct (truthy (job_id job)); [|reflexivity].
  pose proof (query_job_id_db_data job) as Hq. fold q in Hq.
  unfold tdb_upsert, tdb_update. fold q.
  destruct (List.map fst (tdb_search q db)) as [|i ids] eqn:Hids.
  - apply map_fst_nil in Hids. unfold tdb_search in Hids.
    unfold tdb_insert, tdb_search. simpl.
    rewrite !List.filter_app, Hids. simpl. rewrite Hq. simpl.
    split; [|split; [|split; [|split]]].
    + eexists. split; [reflexivity|]. split; [discriminate|reflexivity].
    + repeat constructor.
    + now rewrite List.app_nil_r.
    + intros H. apply (f_equal (fun t => length (docs t))) in H. simpl in H.
      rewrite List.length_app in H. simpl in H. lia.
    + intros [H _]. now elim H.
  - unfold tdb_search in *. simpl.
    rewrite (filter_update _ q Hq), (filter_update_others _ q Hq).
    split; [|split; [|split; [|split]]].
    + eexists. split; [reflexivity|]. split; [discriminate|].
      rewrite List.map_map. simpl. symmetry. exact Hids.
    + apply List.Forall_forall. intros r Hr. apply List.in_map_iff in Hr.
      destruct Hr as (r0 & <- & _). reflexivity.
    + reflexivity.
    + intros H. split.
      * intros Hnil. now rewrite Hnil in Hids.
      * apply (f_equal docs) in H. simpl in H.
        now apply (update_fixed _ q) in H.
    + intros [_ H]. destruct db as [l n]. simpl in *. f_equal.
      now apply (update_fixed _ q).
Qed.

(** C6 (amended): without a job id (none, or an empty one) [save] leaves
    the table as it is, logs an error and returns [None], raising nothing.
    With a job id, every row of that id becomes [db_data] (a row is inserted
    when there is none), the rows of other ids stay, and the value returned
    is the list of the [doc_id] of the rows written; the table is then the
    same as before exactly when its rows of that id were all [db_data]
    already. *)
Theorem save_upserts job db :
  let q := query_job_id (job_id job) in
  let db' := fst (fst (save job db)) in
  if truthy (job_id job) then
    (exists ids, save job db = (db', Some ids, []) /\ ids <> [] /\
       ids = List.map fst (tdb_search q db')) /\
    List.Forall (fun r => snd r = db_data job) (tdb_search q db') /\
    List.filter (fun r => negb (q (snd r))) (docs db') =
      List.filter (fun r => negb (q (snd r))) (docs db) /\
    (db' = db <->
     tdb_search q db <> [] /\
     List.Forall (fun r => snd r = db_data job) (tdb_search q db))
  else save job db = (db, None, [(ERROR, "FAIL to save job without job_id")]).
Proof. exact (save_effect job db). Qed.

(** A job with an id saved twice: the second [save] leaves the table as it
    is although the job has an id, and what it returns is a list of
    [doc_id], not the job id. *)
Lemma save_unchanged_counterexample :
  ~ (fst (fst (save (submitted_job "J1") saved_once)) = saved_once <->
     job_id (submitted_job "J1") = None)
  /\ snd (fst (save (submitted_job "J1") saved_once)) = Some [1%nat].
Proof.
  split; [|reflexivity].
  intros [H _]. specialize (H eq_refl). discriminate.
Qed.

(** C7: after [save] of a job with an id, [find_by_job_id] of that id finds
    a row whose content is the [db_data] of the job. *)
Theorem save_find_by_job_id job db :
  truthy (job_id job) = true ->
  snd <$> find_by_job_id (fst (fst (save job db))) (job_id job)
  = Some (db_data job).
Proof.
  intros Hid. pose proof (save_effect job db) as H. simpl in H.
  rewrite Hid in H. destruct H as ((ids & _ & Hne & Hids) & Hall & _).
  unfold find_by_job_id. rewrite Hid, get_hd_search.
  destruct (tdb_search (query_job_id (job_id job)) (save job db).1.1) as [|r rs].
  - simpl in Hids. contradiction.
  - inversion Hall as [|? ? Hr _]; subst. simpl. now rewrite Hr.
Qed.

Lemma save_find_by_job_id_witness :
  snd <$> find_by_job_id (fst (fst (save (job_with "J1" "RUNNING" 100) saved_once))) (Some "J1")
  = Some (db_data (job_with "J1" "RUNNING" 100)).
Proof.
  apply (save_find_by_job_id (job_with "J1" "RUNNING" 100) saved_once).
  reflexivity.
Defined.

(** Rows written by [save] have a job id. *)
Lemma rows_have_id_empty : rows_have_id empty_table.
Proof. constructor. Qed.

Lemma rows_have_id_save job db :
  rows_have_id db -> rows_have_id (fst (fst (save job db))).
Proof.
  unfold rows_have_id, save. intros H.
  destruct (truthy (job_id job)) eqn:Hid; [|exact H].
  unfold tdb_upsert, tdb_update.
  destruct (List.map fst (tdb_search (query_job_id (job_id job)) db)); simpl.
  - apply List.Forall_app. split; [exact H|]. repeat constructor. exact Hid.
  - apply List.Forall_forall. intros r Hr. apply List.in_map_iff in Hr.
    destruct Hr as (r0 & <- & Hr0). unfold update_row.
    destruct (query_job_id (job_id job) (snd r0)); [exact Hid|].
    exact (proj1 (List.Forall_forall _ _) H r0 Hr0).
Qed.

(** ** The engine: relations kept along a run *)

Lemma bind_eq {A B} (m : M A) (f : A -> M B) s :
  (m ≫= f) s =
  match m s with
  | (Return a, s') => f a s'
  | (Raise e, s') => (Raise e, s')
  | (OutOfFuel, s') => (OutOfFuel, s')
  end.
Proof. reflexivity. Qed.

Lemma bind_get_job {A} (f : AWSBatchJob -> M A) s :
  (get_job ≫= f) s = f (st_job s) s.
Proof. reflexivity. Qed.

Lemma status_loop_frame client config jobs fuel :
  forall tries s,
    st_job (snd (status_loop client config jobs fuel tries s)) = st_job s /\
    st_db (snd (status_loop client config jobs fuel tries s)) = st_db s.
Proof.
  induction fuel as [|fuel IH]; intros tries s; simpl.
  - destruct (tries <? retries config); now split.
  - destruct (tries <? retries config); [|now split].
    rewrite bind_eq. simpl.
    destruct (describe_jobs client (st_calls s) jobs) as [response|code];
      [now split|].
    destruct (is_throttle code); [|now split].
    rewrite bind_eq.
    destruct (tries + 1 <? retries config); simpl;
      match goal with |- context [status_loop _ _ _ _ _ ?s'] =>
        destruct (IH (tries + 1) s') as [-> ->] end; now split.
Qed.

(** A relation that is reflexive and transitive, and that every step of the
    engine keeps, is kept by the adapters, the waiter and the manager. *)
Section Preservation.
Variable response_success : SubmitResponse -> bool.
Variable client : Client.
Variable config : AWSBatchConfig.

Variable R : State -> State -> Prop.
Hypothesis R_refl : forall s, R s s.
Hypothesis R_trans : forall s1 s2 s3, R s1 s2 -> R s2 s3 -> R s1 s3.

Hypothesis R_log : forall level msg, preserves R (log level msg).
Hypothesis R_jitter : forall name lo hi, preserves R (jitter name lo hi).
Hypothesis R_delay : forall name lo hi, preserves R (delay name lo hi).
Hypothesis R_submit_call : forall p, preserves R (api_call (SubmitJob p)).
Hypothesis R_describe_call : forall jobs, preserves R (api_call (DescribeJobs jobs)).
Hypothesis R_terminate_call : forall i r, preserves R (api_call (TerminateJob i r)).
Hypothesis R_save : preserves R db_save.
Hypothesis R_submitted :
  forall s response, R s (snd (set_job (submitted (st_job s) response) s)).
Hypothesis R_described :
  forall s job_desc, R s (snd (set_job (described (st_job s) job_desc) s)).
Hypothesis R_reset : forall s, R s (snd (set_job (reset (st_job s)) s)).

Lemma preserves_ret {A} (a : A) : preserves R (mret a).
Proof. intros s. apply R_refl. Qed.

Lemma preserves_raise {A} e : preserves R (@raise A e).
Proof. intros s. apply R_refl. Qed.

Lemma preserves_out_of_fuel {A} : preserves R (@out_of_fuel A).
Proof. intros s. apply R_refl. Qed.

Lemma preserves_get_job : preserves R get_job.
Proof. intros s. apply R_refl. Qed.

Lemma preserves_bind {A B} (m : M A) (f : A -> M B) :
  preserves R m -> (forall a, preserves R (f a)) -> preserves R (m ≫= f).
Proof.
  intros Hm Hf s. rewrite bind_eq. specialize (Hm s).
  destruct (m s) as [[a|e|] s']; simpl in *; [|exact Hm..].
  eapply R_trans; [exact Hm | apply Hf].
Qed.

Lemma preserves_try_except {A} (m : M A) handler :
  preserves R m -> (forall e, preserves R (handler e)) ->
  preserves R (try_except m handler).
Proof.
  intros Hm Hh s. unfold try_except. specialize (Hm s).
  destruct (m s) as [[a|e|] s']; simpl in *; [exact Hm| |exact Hm].
  eapply R_trans; [exact Hm | apply Hh].
Qed.

Ltac pres :=
  repeat first
    [ apply preserves_ret | apply preserves_raise | apply preserves_out_of_fuel
    | apply R_log | apply R_jitter | apply R_delay | apply R_submit_call
    | apply R_describe_call | apply R_terminate_call | apply R_save
    | apply preserves_get_job
    | apply preserves_bind
    | match goal with
      | |- forall _, _ => intro
      | |- preserves R (if ?b then _ else _) => destruct b
      | |- preserves R (match ?x with _ => _ end) => destruct x
      end ].

Lemma status_loop_preserves jobs fuel :
  forall tries, preserves R (status_loop client config jobs fuel tries).
Proof.
  induction fuel as [|fuel IH]; intros tries; simpl; pres. apply IH.
Qed.

Lemma terminate_loop_preserves i r fuel :
  forall tries, preserves R (terminate_loop client config i r fuel tries).
Proof.
  induction fuel as [|fuel IH]; intros tries; simpl; pres. apply IH.
Qed.

Lemma preserves_step {A B} (m : M A) (f : A -> M B) s :
  R s (snd (m s)) ->
  (forall a s', m s = (Return a, s') -> R s' (snd (f a s'))) ->
  R s (snd ((m ≫= f) s)).
Proof.
  intros Hm Hf. rewrite bind_eq.
  destruct (m s) as [[a|e|] s']; simpl in *; [|exact Hm..].
  eapply R_trans; [exact Hm | now apply Hf].
Qed.

Lemma submit_loop_preserves fuel :
  forall tries, preserves R (submit_loop response_success client config fuel tries).
Proof.
  induction fuel as [|fuel IH]; intros tries s; simpl.
  - destruct (tries <? retries config); apply R_refl.
  - destruct (tries <? retries config); [|apply R_refl].
    rewrite bind_get_job. apply preserves_step; [apply R_submit_call|].
    intros i s' E. injection E as <- <-.
    destruct (submit_job client (st_calls s) (params (st_job s)))
      as [response|code].
    + apply preserves_step.
      * destruct (response_success response);
          [exact (R_submitted _ response) | apply R_refl].
      * intros [] s'' _. apply R_refl.
    + destruct (is_throttle code); [|apply R_refl].
      apply preserves_step; [|intros; apply IH].
      destruct (tries + 1 <? retries config); [apply R_jitter | apply R_refl].
Qed.

Lemma aio_batch_job_submit_preserves :
  preserves R (aio_batch_job_submit response_success client config).
Proof. apply submit_loop_preserves. Qed.

Lemma waiter_loop_preserves fuel :
  forall monitor_failures,
    preserves R (waiter_loop client config fuel monitor_failures).
Proof.
  induction fuel as [|fuel IH]; intros mf s; simpl; [apply R_refl|].
  rewrite bind_get_job.
  apply preserves_step; [apply status_loop_preserves|].
  intros response s1 E.
  assert (Hjob : st_job s1 = st_job s).
  { pose proof (status_loop_frame client config [job_id (st_job s)]
                  (Z.to_nat (retries config)) 0 s) as [H _].
    unfold aio_batch_job_status in E. now rewrite E in H. }
  rewrite <- Hjob.
  destruct (parse_job_description _ response) as [job_desc|].
  - apply preserves_step; [exact (R_described _ job_desc)|].
    intros [] s2 _.
    match goal with |- R _ (snd ((if ?b then _ else _) _)) => destruct b end;
      [apply R_refl|].
    apply preserves_step.
    + match goal with |- R _ (snd ((if ?b then _ else _) _)) => destruct b end;
        [apply R_delay | apply R_refl].
    + intros [] s3 _. apply preserves_step; [apply R_delay|].
      intros [] s4 _. apply IH.
  - apply preserves_step; [apply R_log|]. intros [] s2 _.
    destruct (retries config <? mf + 1).
    + apply preserves_step; [apply R_log|]. intros [] s3 _. apply R_refl.
    + apply preserves_step; [apply R_delay|]. intros [] s3 _. apply IH.
Qed.

Lemma aio_batch_job_waiter_preserves fuel :
  preserves R (aio_batch_job_waiter client config fuel).
Proof.
  apply preserves_try_except; [apply waiter_loop_preserves|].
  intros [code|msg|msg]; try apply preserves_raise.
  apply preserves_bind; [apply R_log | intros; apply preserves_raise].
Qed.

Lemma submit_or_adopt_preserves :
  preserves R (submit_or_adopt response_success client config).
Proof.
  intros s. unfold submit_or_adopt. rewrite bind_get_job.
  destruct (job_id (st_job s)); [apply R_refl|].
  apply preserves_bind; [apply aio_batch_job_submit_preserves|].
  intros _. apply R_save.
Qed.

Lemma aio_batch_job_manager_preserves wfuel fuel :
  preserves R (aio_batch_job_manager response_success client config wfuel fuel).
Proof.
  induction fuel as [|fuel IH]; intros s; simpl; rewrite bind_get_job;
    (destruct (num_tries (st_job s) <? max_tries (st_job s));
     [|apply preserves_step; [apply R_log | intros; apply R_refl]]);
    [apply R_refl|].
  apply preserves_step; [apply submit_or_adopt_preserves|].
  intros [] s1 _.
  apply preserves_step; [apply aio_batch_job_waiter_preserves|].
  intros job_desc s2 _.
  apply preserves_step; [apply R_save|]. intros [] s3 _.
  destruct job_desc as [desc|]; [|apply R_refl].
  destruct (String.eqb (status desc) "SUCCEEDED"); [apply R_refl|].
  destruct (String.eqb (status desc) "FAILED"); [|apply IH].
  destruct (spot_failure desc); [|apply R_refl].
  apply preserves_step; [apply R_log|]. intros [] s4 _.
  rewrite bind_get_job.
  apply preserves_step; [apply R_reset|]. intros [] s5 _.
  apply preserves_step; [apply R_save|]. intros [] s6 _. apply IH.
Qed.
End Preservation.


(** ** Throttled calls *)

Lemma state_eta s :
  s = {| st_job := st_job s; st_db := st_db s; st_calls := st_calls s + 0;
         st_trace := st_trace s ++ [] |}.
Proof. destruct s; simpl. now rewrite Nat.add_0_r, List.app_nil_r. Qed.

Lemma count_throttled_calls p call pause n :
  p call = true -> p pause = false ->
  count_events p (throttled_events call pause n) = n.
Proof.
  intros Hc Hp. unfold count_events.
  induction n as [|n IH]; [reflexivity|].
  destruct n as [|n].
  - simpl. now rewrite Hc.
  - change (throttled_events call pause (S (S n)))
      with (call :: pause :: throttled_events call pause (S n)).
    cbn [List.filter]. rewrite Hc, Hp. cbn [length]. now rewrite IH.
Qed.

Lemma count_throttled_pauses p call pause n :
  p call = false -> p pause = true ->
  count_events p (throttled_events call pause n) = (n - 1)%nat.
Proof.
  intros Hc Hp. unfold count_events.
  induction n as [|n IH]; [reflexivity|].
  destruct n as [|n].
  - simpl. now rewrite Hc.
  - change (throttled_events call pause (S (S n)))
      with (call :: pause :: throttled_events call pause (S n)).
    cbn [List.filter]. rewrite Hc, Hp. cbn [length]. rewrite IH. lia.
Qed.

Ltac ltb_false := symmetry; apply Z.ltb_ge; lia.
Ltac ltb_true := symmetry; apply Z.ltb_lt; lia.

(** One round of a loop whose call is throttled. *)
Ltac throttled_round fuel tries config IH Hthrottle :=
  rewrite bind_eq; cbn [api_call fst snd]; rewrite Hthrottle;
  cbn [is_throttle String.eqb Ascii.eqb Bool.eqb];
  rewrite bind_eq;
  destruct fuel as [|fuel];
  [ replace (tries + 1 <? retries config) with false by ltb_false;
    cbn;
    replace (tries + 1 <? retries config) with false by ltb_false;
    unfold raise; f_equal; f_equal; lia
  | replace (tries + 1 <? retries config) with true by ltb_true;
    cbn [jitter emit];
    rewrite IH by lia; cbn [st_job st_db st_calls st_trace];
    f_equal; f_equal; [lia | now rewrite <- !List.app_assoc] ].

Section Throttled.
Variable response_success : SubmitResponse -> bool.
Variable client : Client.
Variable config : AWSBatchConfig.
Hypothesis throttles : always_throttles client.

Lemma submit_loop_throttled fuel :
  forall tries s,
    Z.of_nat fuel = retries config - tries ->
    submit_loop response_success client config fuel tries s =
    (Raise (RuntimeError "AWS Batch job submission exceeded retries"),
     {| st_job := st_job s; st_db := st_db s;
        st_calls := st_calls s + fuel;
        st_trace := st_trace s ++
          throttled_events (SubmitJob (params (st_job s)))
            (Jitter "batch-job-submit" (min_jitter config) (max_jitter config))
            fuel |}).
Proof.
  destruct throttles as (Hthrottle & _ & _).
  induction fuel as [|fuel IH]; intros tries s Hfuel; simpl.
  - replace (tries <? retries config) with false by ltb_false.
    unfold raise. f_equal. apply state_eta.
  - replace (tries <? retries config) with true by ltb_true.
    rewrite bind_get_job.
    throttled_round fuel tries config IH Hthrottle.
Qed.

Lemma status_loop_throttled jobs fuel :
  forall tries s,
    Z.of_nat fuel = retries config - tries ->
    status_loop client config jobs fuel tries s =
    (Raise (RuntimeError "AWS Batch job description exceeded retries"),
     {| st_job := st_job s; st_db := st_db s;
        st_calls := st_calls s + fuel;
        st_trace := st_trace s ++
          throttled_events (DescribeJobs jobs)
            (Jitter "batch-job-status" (min_jitter config) (max_jitter config))
            fuel |}).
Proof.
  destruct throttles as (_ & Hthrottle & _).
  induction fuel as [|fuel IH]; intros tries s Hfuel; simpl.
  - replace (tries <? retries config) with false by ltb_false.
    unfold raise. f_equal. apply state_eta.
  - replace (tries <? retries config) with true by ltb_true.
    throttled_round fuel tries config IH Hthrottle.
Qed.

Lemma terminate_loop_throttled a_job_id reason fuel :
  forall tries s,
    Z.of_nat fuel = retries config - tries ->
    terminate_loop client config a_job_id reason fuel tries s =
    (Raise (RuntimeError "AWS Batch job termination exceeded retries"),
     {| st_job := st_job s; st_db := st_db s;
        st_calls := st_calls s + fuel;
        st_trace := st_trace s ++
          throttled_events (TerminateJob a_job_id reason)
            (Jitter "batch-job-terminate" (min_jitter config) (max_jitter config))
            fuel |}).
Proof.
  destruct throttles as (_ & _ & Hthrottle).
  induction fuel as [|fuel IH]; intros tries s Hfuel; simpl.
  - replace (tries <? retries config) with false by ltb_false.
    unfold raise. f_equal. apply state_eta.
  - replace (tries <? retries config) with true by ltb_true.
    throttled_round fuel tries config IH Hthrottle.
Qed.
End Throttled.

(** C4: when the service throttles every call and [retries] is at least 1,
    each of submit, describe and terminate makes [retries] calls, sleeps
    [retries - 1] times between them, and raises the error of exceeded
    retries. *)
Theorem throttled_calls_exceed_retries response_success client config s
    jobs a_job_id reason :
  1 <= retries config ->
  always_throttles client ->
  exceeds_retries (aio_batch_job_submit response_success client config)
    "AWS Batch job submission exceeded retries" is_submit (retries config) s /\
  exceeds_retries (aio_batch_job_status client config jobs)
    "AWS Batch job description exceeded retries" is_describe (retries config) s /\
  exceeds_retries (aio_batch_job_terminate client config a_job_id reason)
    "AWS Batch job termination exceeded retries" is_terminate (retries config) s.
Proof.
  intros Hretries Hthrottles.
  split; [|split]; eexists; (split; [|split]).
  - apply submit_loop_throttled; [exact Hthrottles | lia].
  - rewrite count_throttled_calls by reflexivity. lia.
  - rewrite count_throttled_pauses by reflexivity. lia.
  - apply status_loop_throttled; [exact Hthrottles | lia].
  - rewrite count_throttled_calls by reflexivity. lia.
  - rewrite count_throttled_pauses by reflexivity. lia.
  - apply terminate_loop_throttled; [exact Hthrottles | lia].
  - rewrite count_throttled_calls by reflexivity. lia.
  - rewrite count_throttled_pauses by reflexivity. lia.
Qed.

Lemma throttling_client_throttles : always_throttles throttling_client.
Proof. repeat split. Qed.

Lemma throttled_calls_exceed_retries_witness :
  exceeds_retries
    (aio_batch_job_submit http_success throttling_client (config_of 5))
    "AWS Batch job submission exceeded retries" is_submit 5
    (state_of fresh_job empty_table) /\
  exceeds_retries
    (aio_batch_job_status throttling_client (config_of 5) [Some "J1"])
    "AWS Batch job description exceeded retries" is_describe 5
    (state_of fresh_job empty_table) /\
  exceeds_retries
    (aio_batch_job_terminate throttling_client (config_of 5) "J1" "stop")
    "AWS Batch job termination exceeded retries" is_terminate 5
    (state_of fresh_job empty_table).
Proof.
  apply (throttled_calls_exceed_retries http_success throttling_client
           (config_of 5) (state_of fresh_job empty_table) [Some "J1"] "J1" "stop").
  - simpl. lia.
  - exact throttling_client_throttles.
Defined.


(** ** The waiter and the polls without a description *)

Lemma aio_batch_job_status_ok client config jobs response s :
  1 <= retries config ->
  describe_jobs client (st_calls s) jobs = Ok response ->
  aio_batch_job_status client config jobs s =
  (Return response,
   {| st_job := st_job s; st_db := st_db s; st_calls := S (st_calls s);
      st_trace := st_trace s ++ [DescribeJobs jobs] |}).
Proof.
  intros Hretries Hok. unfold aio_batch_job_status.
  destruct (Z.to_nat (retries config)) as [|fuel] eqn:Hfuel; [lia|].
  simpl. replace (0 <? retries config) with true by ltb_true.
  rewrite bind_eq. cbn [api_call fst snd]. now rewrite Hok.
Qed.

Lemma polls_cons client a_job_id start o obs :
  polls client a_job_id start (o :: obs) ->
  (exists response,
     describe_jobs client start [a_job_id] = Ok response /\
     parse_job_description a_job_id response = o) /\
  polls client a_job_id (S start) obs.
Proof.
  intros H. split.
  - destruct (H 0%nat o eq_refl) as (response & Hd & Hp).
    rewrite Nat.add_0_r in Hd. now exists response.
  - intros k o' Hk. destruct (H (S k) o' Hk) as (response & Hd & Hp).
    rewrite Nat.add_succ_r in Hd. now exists response.
Qed.

Lemma pending_cons o obs :
  pending (o :: obs) ->
  (forall d, o = Some d -> str_in (status d) ["FAILED"; "SUCCEEDED"] = false) /\
  pending obs.
Proof.
  intros H. split.
  - intros d ->. apply H. now left.
  - intros d Hd. apply H. now right.
Qed.

Lemma count_misses_cons o obs :
  count_misses (o :: obs) = ((if is_miss o then 1 else 0) + count_misses obs)%nat.
Proof. unfold count_misses. simpl. now destruct (is_miss o). Qed.

Lemma waiter_loop_polls client config obs :
  forall monitor_failures s n,
    1 <= retries config ->
    polls client (job_id (st_job s)) (st_calls s) obs ->
    pending obs ->
    monitor_failures + Z.of_nat (count_misses obs) <= retries config ->
    exists s',
      waiter_loop client config (length obs + n) monitor_failures s =
      waiter_loop client config n
        (monitor_failures + Z.of_nat (count_misses obs)) s' /\
      st_calls s' = (st_calls s + length obs)%nat /\
      job_id (st_job s') = job_id (st_job s) /\
      st_db s' = st_db s.
Proof.
  induction obs as [|o obs IH]; intros mf s n Hretries Hpolls Hpending Hmf.
  - exists s. simpl. rewrite Z.add_0_r, Nat.add_0_r. now repeat split.
  - apply polls_cons in Hpolls as ((response & Hdesc & Hparse) & Hpolls).
    apply pending_cons in Hpending as (Hstatus & Hpending).
    rewrite count_misses_cons in *.
    cbn [length Nat.add waiter_loop].
    rewrite bind_get_job, bind_eq.
    rewrite (aio_batch_job_status_ok _ _ _ response s Hretries Hdesc).
    rewrite Hparse. destruct o as [d|]; cbn [is_miss] in *.
    + rewrite bind_eq. cbn [set_job fst snd st_job st_db st_calls st_trace].
      rewrite (Hstatus d eq_refl). rewrite bind_eq.
      destruct (str_in (status d) ["SUBMITTED"; "PENDING"; "RUNNABLE"]);
        cbn [delay emit mret M_ret m_ret]; rewrite bind_eq; cbn [delay emit];
        match goal with
        | |- context [waiter_loop _ _ (length obs + n) mf ?s1] =>
            destruct (IH mf s1 n Hretries Hpolls Hpending ltac:(simpl; lia))
              as (s' & Hrun & Hcalls & Hid & Hdb)
        end;
        exists s'; rewrite Hrun, Hcalls, Hid, Hdb; simpl;
        (split; [f_equal; lia|]); (split; [lia|]); now split.
    + rewrite bind_eq. cbn [log emit].
      replace (retries config <? mf + 1) with false by ltb_false.
      rewrite bind_eq. cbn [delay emit].
      match goal with
      | |- context [waiter_loop _ _ (length obs + n) (mf + 1) ?s1] =>
          destruct (IH (mf + 1) s1 n Hretries Hpolls Hpending ltac:(simpl; lia))
            as (s' & Hrun & Hcalls & Hid & Hdb)
      end.
      exists s'. rewrite Hrun, Hcalls, Hid, Hdb. simpl.
      (split; [f_equal; lia|]); (split; [lia|]); now split.
Qed.

Lemma polls_app client a_job_id start obs1 obs2 :
  polls client a_job_id start (obs1 ++ obs2) ->
  polls client a_job_id start obs1 /\
  polls client a_job_id (start + length obs1) obs2.
Proof.
  intros H. split.
  - intros k o Hk. apply H. rewrite List.nth_error_app1; [exact Hk|].
    apply List.nth_error_Some. congruence.
  - intros k o Hk. rewrite <- Nat.add_assoc. apply H.
    rewrite List.nth_error_app2 by lia.
    now replace (length obs1 + k - length obs1)%nat with k by lia.
Qed.

Lemma pending_app obs1 obs2 :
  pending (obs1 ++ obs2) -> pending obs1 /\ pending obs2.
Proof.
  intros H. split; intros d Hd; apply H; apply List.in_or_app; tauto.
Qed.

Lemma count_misses_app obs1 obs2 :
  count_misses (obs1 ++ obs2) = (count_misses obs1 + count_misses obs2)%nat.
Proof. unfold count_misses. now rewrite List.filter_app, List.length_app. Qed.

Lemma waiter_of_loop client config fuel s (r : option JobDesc) s' :
  waiter_loop client config fuel 0 s = (Return r, s') ->
  aio_batch_job_waiter client config fuel s = (Return r, s').
Proof. intros H. unfold aio_batch_job_waiter, try_except. now rewrite H. Qed.

Lemma waiter_loop_gives_up client config fuel monitor_failures s response :
  1 <= retries config ->
  describe_jobs client (st_calls s) [job_id (st_job s)] = Ok response ->
  parse_job_description (job_id (st_job s)) response = None ->
  retries config < monitor_failures + 1 ->
  waiter_loop client config (S fuel) monitor_failures s =
  (Return None,
   {| st_job := st_job s; st_db := st_db s; st_calls := S (st_calls s);
      st_trace := st_trace s ++
        [DescribeJobs [job_id (st_job s)];
         Log WARNING "AWS Batch job (%s:%s) has no description";
         Log ERROR "AWS Batch job (%s:%s) failed to monitor job"] |}).
Proof.
  intros Hretries Hdesc Hparse Hmf. cbn [waiter_loop].
  rewrite bind_get_job, bind_eq.
  rewrite (aio_batch_job_status_ok _ _ _ response s Hretries Hdesc), Hparse.
  rewrite bind_eq. cbn [log emit].
  replace (retries config <? monitor_failures + 1) with true by ltb_true.
  rewrite bind_eq. cbn [log emit]. simpl.
  now rewrite <- !List.app_assoc.
Qed.

(** C5 (amended): the waiter counts every poll without a description, in a
    row or not.  After polls [seen] that held [retries] misses and otherwise
    descriptions with a status that is not final, the waiter is still
    polling; at the next miss it gives up and returns [None]. *)
Theorem waiter_counts_all_misses client config s seen :
  1 <= retries config ->
  polls client (job_id (st_job s)) (st_calls s) (seen ++ [None]) ->
  pending seen ->
  Z.of_nat (count_misses seen) = retries config ->
  (forall fuel, (fuel <= length seen)%nat ->
     fst (aio_batch_job_waiter client config fuel s) = OutOfFuel) /\
  (forall fuel, (length seen < fuel)%nat ->
     exists s',
       aio_batch_job_waiter client config fuel s = (Return None, s') /\
       st_calls s' = (st_calls s + length seen + 1)%nat /\
       st_db s' = st_db s).
Proof.
  intros Hretries Hpolls Hpending Hmisses.
  apply polls_app in Hpolls as (Hseen & Hlast). split.
  - intros fuel Hfuel.
    rewrite <- (List.firstn_skipn fuel seen) in Hseen, Hpending, Hmisses.
    apply polls_app in Hseen as (Hseen & _).
    apply pending_app in Hpending as (Hpending & _).
    rewrite count_misses_app in Hmisses.
    destruct (waiter_loop_polls client config (List.firstn fuel seen) 0 s 0
                Hretries Hseen Hpending ltac:(lia))
      as (s' & Hrun & _).
    rewrite List.length_firstn, Nat.min_l, Nat.add_0_r in Hrun by exact Hfuel.
    unfold aio_batch_job_waiter, try_except. now rewrite Hrun.
  - intros fuel Hfuel.
    destruct (waiter_loop_polls client config seen 0 s (fuel - length seen)
                Hretries Hseen Hpending ltac:(lia))
      as (s' & Hrun & Hcalls & Hid & Hdb).
    replace (length seen + (fuel - length seen))%nat with fuel in Hrun by lia.
    destruct (fuel - length seen)%nat as [|n] eqn:Hn; [lia|].
    destruct (Hlast 0%nat None eq_refl) as (response & Hdesc & Hparse).
    rewrite Nat.add_0_r, <- Hcalls, <- Hid in Hdesc. rewrite <- Hid in Hparse.
    rewrite (waiter_loop_gives_up client config n
               (0 + Z.of_nat (count_misses seen)) s' response
               Hretries Hdesc Hparse ltac:(lia)) in Hrun.
    eexists. split; [apply waiter_of_loop; exact Hrun|].
    simpl. split; [lia | exact Hdb].
Qed.

Lemma miss_hit_miss_polls :
  polls (scripted_client miss_hit_miss) (Some "J1") 0 miss_hit_miss_obs.
Proof.
  intros k o Hk. destruct k as [|[|[|k]]]; simpl in Hk.
  - injection Hk as <-. now eexists.
  - injection Hk as <-. now eexists.
  - injection Hk as <-. now eexists.
  - now destruct k.
Qed.

Lemma waiter_counts_all_misses_witness :
  exists s',
    aio_batch_job_waiter (scripted_client miss_hit_miss) (config_of 1) 3
      (state_of (submitted_job "J1") empty_table) = (Return None, s') /\
    st_calls s' = 3%nat /\ st_db s' = empty_table.
Proof.
  apply (waiter_counts_all_misses (scripted_client miss_hit_miss) (config_of 1)
           (state_of (submitted_job "J1") empty_table)
           [None; Some (desc_of "J1" "RUNNING" None 100)]).
  - simpl. lia.
  - exact miss_hit_miss_polls.
  - intros d [Hd|[Hd|[]]]; [discriminate|]. injection Hd as <-. reflexivity.
  - reflexivity.
  - simpl. lia.
Defined.

(** With [retries = 1] the waiter gives up after a miss, a RUNNING
    description and a second miss: no two misses in a row, one more than
    [retries] in all. *)
Lemma waiter_consecutive_misses_counterexample :
  ~ (fst (aio_batch_job_waiter (scripted_client miss_hit_miss) (config_of 1) 3
            (state_of (submitted_job "J1") empty_table)) = Return None ->
     retries (config_of 1) < Z.of_nat (longest_miss_run miss_hit_miss_obs)).
Proof.
  intros H. specialize (H eq_refl). vm_compute in H. discriminate.
Qed.


(** ** What the steps of the engine keep *)

Lemma db_save_eq s :
  db_save s =
  (Return tt,
   {| st_job := st_job s; st_db := fst (fst (save (st_job s) (st_db s)));
      st_calls := st_calls s;
      st_trace := st_trace s ++
        List.map (fun r => Log (fst r) (snd r)) (snd (save (st_job s) (st_db s))) |}).
Proof. unfold db_save. now destruct (save (st_job s) (st_db s)) as [[t r] logged]. Qed.

Lemma count_events_app p tr1 tr2 :
  count_events p (tr1 ++ tr2) = (count_events p tr1 + count_events p tr2)%nat.
Proof. unfold count_events. now rewrite List.filter_app, List.length_app. Qed.

Lemma extends_refl s : extends s s.
Proof. exists []. now rewrite List.app_nil_r. Qed.

Lemma extends_trans s1 s2 s3 : extends s1 s2 -> extends s2 s3 -> extends s1 s3.
Proof.
  intros [e1 H1] [e2 H2]. exists (e1 ++ e2)%list.
  now rewrite H2, H1, List.app_assoc.
Qed.

Ltac step_frame :=
  unfold preserves; intros;
  repeat match goal with
         | |- context [db_save ?s] => rewrite (db_save_eq s)
         end;
  cbn [log jitter delay emit api_call set_job fst snd
       st_job st_db st_calls st_trace].

Lemma submitted_tries_consistent job response :
  tries_consistent job -> tries_consistent (submitted job response).
Proof.
  unfold tries_consistent. simpl. intros ->.
  rewrite List.length_app. simpl. lia.
Qed.

Lemma aio_batch_job_submit_keeps_tries response_success client config s :
  keeps_tries s (snd (aio_batch_job_submit response_success client config s)).
Proof.
  apply (aio_batch_job_submit_preserves response_success client config keeps_tries);
    try (step_frame; unfold keeps_tries; now auto).
  step_frame. unfold keeps_tries. apply submitted_tries_consistent.
Qed.

Lemma aio_batch_job_waiter_keeps_tries client config fuel s :
  keeps_tries s (snd (aio_batch_job_waiter client config fuel s)).
Proof.
  apply (aio_batch_job_waiter_preserves client config keeps_tries);
    step_frame; unfold keeps_tries; now auto.
Qed.

Lemma aio_batch_job_manager_keeps_tries response_success client config wfuel fuel s :
  keeps_tries s
    (snd (aio_batch_job_manager response_success client config wfuel fuel s)).
Proof.
  apply (aio_batch_job_manager_preserves response_success client config keeps_tries);
    try (step_frame; unfold keeps_tries; now auto).
  step_frame. unfold keeps_tries. apply submitted_tries_consistent.
Qed.

Lemma aio_batch_job_waiter_waits client config fuel s :
  waits s (snd (aio_batch_job_waiter client config fuel s)).
Proof.
  apply (aio_batch_job_waiter_preserves client config waits);
    try (step_frame; unfold waits; step_frame; rewrite ?count_events_app;
         unfold count_events; simpl; repeat split; (reflexivity || lia)).
  unfold waits. intros s1 s2 s3 (? & ? & ? & ?) (? & ? & ? & ?).
  repeat split; congruence.
Qed.

Lemma aio_batch_job_manager_extends response_success client config wfuel fuel s :
  extends s (snd (aio_batch_job_manager response_success client config wfuel fuel s)).
Proof.
  apply (aio_batch_job_manager_preserves response_success client config extends);
    try apply extends_refl; try apply extends_trans;
    try (step_frame; unfold extends; cbn [st_trace]; now eauto);
    step_frame; exists []; cbn [st_trace]; now rewrite List.app_nil_r.
Qed.


(** ** The tries of a job *)

Lemma submit_loop_return response_success client config fuel :
  forall tries s response s',
    submit_loop response_success client config fuel tries s = (Return response, s') ->
    st_job s' = if response_success response
                then submitted (st_job s) response else st_job s.
Proof.
  induction fuel as [|fuel IH]; intros tries s response s'; simpl.
  - destruct (tries <? retries config); discriminate.
  - destruct (tries <? retries config); [|discriminate].
    rewrite bind_get_job, bind_eq. cbn [api_call fst snd].
    destruct (submit_job client (st_calls s) (params (st_job s))) as [r|code].
    + rewrite bind_eq. destruct (response_success r) eqn:Hr;
        cbn [set_job mret M_ret m_ret]; intros H; injection H as <- <-;
        simpl; now rewrite Hr.
    + destruct (is_throttle code); [|discriminate].
      rewrite bind_eq.
      destruct (tries + 1 <? retries config); cbn [jitter emit mret M_ret m_ret];
        intros H; apply IH in H; exact H.
Qed.

Lemma default_job_tries_consistent name queue definition cmd deps overrides :
  tries_consistent (default_AWSBatchJob name queue definition cmd deps overrides).
Proof. reflexivity. Qed.

(** C9: a job built with the default tries has [num_tries] equal to the
    length of [job_tries]; from a state where this holds it holds after
    [reset], which keeps both fields, after a submission, which on success
    appends the new id and adds one, after a wait and after a run of the
    manager. *)
Theorem tries_stay_consistent response_success client config wfuel fuel
    name queue definition cmd deps overrides :
  tries_consistent (default_AWSBatchJob name queue definition cmd deps overrides) /\
  forall s, tries_consistent (st_job s) ->
    (tries_consistent (reset (st_job s)) /\
     job_tries (reset (st_job s)) = job_tries (st_job s) /\
     num_tries (reset (st_job s)) = num_tries (st_job s)) /\
    tries_consistent
      (st_job (snd (aio_batch_job_submit response_success client config s))) /\
    (forall response s',
       aio_batch_job_submit response_success client config s = (Return response, s') ->
       response_success response = true ->
       job_tries (st_job s') = (job_tries (st_job s) ++ [resp_jobId response])%list /\
       num_tries (st_job s') = num_tries (st_job s) + 1) /\
    tries_consistent (st_job (snd (aio_batch_job_waiter client config wfuel s))) /\
    tries_consistent
      (st_job (snd (aio_batch_job_manager response_success client config wfuel fuel s))).
Proof.
  split; [apply default_job_tries_consistent|].
  intros s Hs.
  split; [repeat split; exact Hs|].
  split; [now apply aio_batch_job_submit_keeps_tries|].
  split.
  - intros response s' Hrun Hok. apply submit_loop_return in Hrun.
    rewrite Hok in Hrun. now rewrite Hrun.
  - split.
    + now apply aio_batch_job_waiter_keeps_tries.
    + now apply aio_batch_job_manager_keeps_tries.
Qed.

Lemma tries_stay_consistent_witness :
  tries_consistent
    (st_job (snd (aio_batch_job_manager http_success (scripted_client spot_script)
                    (config_of 5) 3 3 spot_state))).
Proof.
  destruct (tries_stay_consistent http_success (scripted_client spot_script)
              (config_of 5) 3 3 "t-0000" "batch-dev" "batch-dev" None None None)
    as [_ Hkept].
  apply (Hkept spot_state). reflexivity.
Defined.

(** ** The pattern of a SPOT failure *)

Lemma append_nil_l s : "" ++ s = s.
Proof. reflexivity. Qed.

Lemma append_cons c s1 s2 : String c s1 ++ s2 = String c (s1 ++ s2).
Proof. reflexivity. Qed.

Ltac append_simpl := repeat (rewrite append_cons || rewrite append_nil_l).
Ltac append_simpl_in H :=
  repeat (rewrite append_cons in H || rewrite append_nil_l in H).

Lemma append_nil_inv s1 s2 : s1 ++ s2 = "" -> s1 = "" /\ s2 = "".
Proof. destruct s1; append_simpl; [tauto | discriminate]. Qed.

Lemma append_assoc s1 s2 s3 : (s1 ++ s2) ++ s3 = s1 ++ (s2 ++ s3).
Proof.
  induction s1 as [|c s1 IH]; append_simpl;
    [reflexivity | now rewrite IH].
Qed.

Lemma matches_cat_inv r1 r2 s :
  matches (Cat r1 r2) s ->
  exists s1 s2, s = s1 ++ s2 /\ matches r1 s1 /\ matches r2 s2.
Proof. intros H. inversion H; subst. eauto. Qed.

Lemma matches_alt_inv r1 r2 s :
  matches (Alt r1 r2) s -> matches r1 s \/ matches r2 s.
Proof. intros H. inversion H; subst; tauto. Qed.

Lemma matches_chr_inv c s : matches (Chr c) s -> s = String c "".
Proof. intros H. now inversion H. Qed.

Lemma matches_dot_inv s :
  matches Dot s -> exists c, s = String c "" /\ c <> newline.
Proof. intros H. inversion H; subst. eauto. Qed.

Lemma matches_eps_inv s : matches Eps s -> s = "".
Proof. intros H. now inversion H. Qed.

Lemma matches_void_inv s : ~ matches Void s.
Proof. intros H. inversion H. Qed.

Lemma nullable_matches r : nullable r = true <-> matches r "".
Proof.
  induction r as [| | c | | r1 IH1 r2 IH2 | r1 IH1 r2 IH2 | r IH]; simpl.
  - split; [discriminate | intros H; now apply matches_void_inv in H].
  - split; [constructor | reflexivity].
  - split; [discriminate | intros H; now apply matches_chr_inv in H].
  - split; [discriminate|].
    intros H. apply matches_dot_inv in H as (c & H & _). discriminate.
  - rewrite andb_true_iff, IH1, IH2. split.
    + intros [H1 H2]. exact (matches_cat r1 r2 "" "" H1 H2).
    + intros H. apply matches_cat_inv in H as (s1 & s2 & Hs & H1 & H2).
      symmetry in Hs. apply append_nil_inv in Hs as [-> ->]. now split.
  - rewrite orb_true_iff, IH1, IH2. split.
    + intros [H|H]; [now apply matches_alt_l | now apply matches_alt_r].
    + apply matches_alt_inv.
  - split; [constructor | reflexivity].
Qed.

Lemma matches_star_cons r a s :
  matches (Star r) (String a s) ->
  exists s1 s2, s = s1 ++ s2 /\ matches r (String a s1) /\ matches (Star r) s2.
Proof.
  intros H. remember (Star r) as r' eqn:Hr. remember (String a s) as s' eqn:Hs.
  revert Hr Hs.
  induction H as [| | | | | | |r0 s1 s2 H1 _ H2 IH2]; intros Hr Hs;
    try discriminate.
  injection Hr as ->. destruct s1 as [|c s1]; append_simpl_in Hs.
  - now apply IH2.
  - injection Hs as -> <-. now exists s1, s2.
Qed.

Lemma matches_cat_cons r1 r2 a s :
  matches (Cat r1 r2) (String a s) <->
  (exists s1 s2, s = s1 ++ s2 /\ matches r1 (String a s1) /\ matches r2 s2) \/
  (matches r1 "" /\ matches r2 (String a s)).
Proof.
  split.
  - intros H. apply matches_cat_inv in H as (s1 & s2 & Hs & H1 & H2).
    destruct s1 as [|c s1]; append_simpl_in Hs.
    + subst. now right.
    + injection Hs as -> ->. left. now exists s1, s2.
  - intros [(s1 & s2 & -> & H1 & H2)|[H1 H2]].
    + exact (matches_cat r1 r2 (String a s1) s2 H1 H2).
    + exact (matches_cat r1 r2 "" (String a s) H1 H2).
Qed.

Lemma deriv_matches a r : forall s, matches (deriv a r) s <-> matches r (String a s).
Proof.
  induction r as [| | c | | r1 IH1 r2 IH2 | r1 IH1 r2 IH2 | r IH]; intros s; simpl.
  - split; intros H; now apply matches_void_inv in H.
  - split; intros H; [now apply matches_void_inv in H|].
    apply matches_eps_inv in H. discriminate.
  - destruct (Ascii.eqb_spec a c) as [->|Hne]; split; intros H.
    + apply matches_eps_inv in H as ->. constructor.
    + apply matches_chr_inv in H. injection H as ->. constructor.
    + now apply matches_void_inv in H.
    + apply matches_chr_inv in H. congruence.
  - destruct (Ascii.eqb_spec a newline) as [->|Hne]; split; intros H.
    + now apply matches_void_inv in H.
    + apply matches_dot_inv in H as (c & H & Hc). congruence.
    + apply matches_eps_inv in H as ->. now constructor.
    + apply matches_dot_inv in H as (c & H & Hc). injection H as -> ->.
      constructor.
  - assert (Hcat : matches (Cat (deriv a r1) r2) s <->
                   exists s1 s2, s = s1 ++ s2 /\ matches r1 (String a s1) /\ matches r2 s2).
    { split.
      - intros H. apply matches_cat_inv in H as (s1 & s2 & -> & H1 & H2).
        exists s1, s2. rewrite <- IH1. now repeat split.
      - intros (s1 & s2 & -> & H1 & H2). constructor; [now apply IH1 | exact H2]. }
    rewrite matches_cat_cons. destruct (nullable r1) eqn:Hn.
    + apply nullable_matches in Hn. split.
      * intros H. apply matches_alt_inv in H as [H|H]; [left; now apply Hcat|].
        right. split; [exact Hn | now apply IH2].
      * intros [H|[_ H]]; [apply matches_alt_l; now apply Hcat|].
        apply matches_alt_r. now apply IH2.
    + rewrite Hcat. split; [tauto|]. intros [H|[H _]]; [exact H|].
      apply nullable_matches in H. congruence.
  - split; intros H; apply matches_alt_inv in H as [H|H];
      (apply matches_alt_l; now apply IH1) || (apply matches_alt_r; now apply IH2).
  - split.
    + intros H. apply matches_cat_inv in H as (s1 & s2 & -> & H1 & H2).
      apply IH in H1. exact (matches_star_app r (String a s1) s2 H1 H2).
    + intros H. apply matches_star_cons in H as (s1 & s2 & -> & H1 & H2).
      constructor; [now apply IH | exact H2].
Qed.

(** [re.match]: some prefix of the string is in the language. *)
Lemma re_match_matches s : forall r,
  re_match r s = true <-> exists p q, s = p ++ q /\ matches r p.
Proof.
  induction s as [|a s IH]; intros r; simpl; rewrite orb_true_iff.
  - rewrite nullable_matches. split.
    + intros [H|H]; [now exists "", "" | discriminate].
    + intros (p & q & Hs & H). left. symmetry in Hs.
      apply append_nil_inv in Hs as [-> _]. exact H.
  - rewrite nullable_matches, IH. split.
    + intros [H|(p & q & -> & H)].
      * now exists "", (String a s).
      * exists (String a p), q. split; [reflexivity | now apply deriv_matches].
    + intros (p & q & Hs & H). destruct p as [|c p]; [now left|].
      append_simpl_in Hs. injection Hs as <- ->. right.
      exists p, q. split; [reflexivity | now apply deriv_matches].
Qed.

Lemma matches_lit w : forall p, matches (lit w) p <-> p = w.
Proof.
  induction w as [|c w IH]; intros p; simpl.
  - split; [apply matches_eps_inv | intros ->; constructor].
  - split.
    + intros H. apply matches_cat_inv in H as (s1 & s2 & -> & H1 & H2).
      apply matches_chr_inv in H1 as ->. apply IH in H2 as ->. reflexivity.
    + intros ->. apply (matches_cat (Chr c) (lit w) (String c "") w);
        [constructor | now apply IH].
Qed.

Lemma matches_any p : matches (Star Dot) p <-> no_newline p = true.
Proof.
  split.
  - intros H. remember (Star Dot) as r eqn:Hr. revert Hr.
    induction H as [| | | | | | |r0 s1 s2 H1 _ H2 IH2]; intros Hr;
      try discriminate; [reflexivity|].
    injection Hr as ->. apply matches_dot_inv in H1 as (c & -> & Hc).
    append_simpl. simpl.
    rewrite (IH2 eq_refl), andb_true_r.
    now destruct (Ascii.eqb_spec c newline).
  - induction p as [|c p IH]; simpl; [constructor|].
    rewrite andb_true_iff, negb_true_iff. intros [Hc Hp].
    apply (matches_star_app Dot (String c "") p); [|now apply IH].
    constructor. intros ->. now rewrite Ascii.eqb_refl in Hc.
Qed.

(** The reasons that the manager takes for a SPOT failure. *)
Lemma spot_pattern_matches reason :
  re_match spot_pattern reason = true <->
  exists middle rest,
    reason = "Host EC2" ++ middle ++ "terminated" ++ rest /\
    no_newline middle = true.
Proof.
  rewrite re_match_matches. unfold spot_pattern. split.
  - intros (p & q & -> & H).
    apply matches_cat_inv in H as (s1 & s2 & -> & H1 & H2).
    apply matches_cat_inv in H2 as (s3 & s4 & -> & H3 & H4).
    apply matches_lit in H1, H4. apply matches_any in H3. subst.
    exists s3, q. split; [|exact H3].
    now rewrite !append_assoc.
  - intros (middle & rest & -> & Hm).
    exists ("Host EC2" ++ middle ++ "terminated"), rest. split.
    + now rewrite !append_assoc.
    + apply matches_cat; [now apply matches_lit|].
      apply matches_cat; [now apply matches_any | now apply matches_lit].
Qed.

(** ** The manager *)


(** C2: when the waiter gives up and returns [None], the manager saves the
    job and then raises [TypeError] on [job_desc["status"]]; its loop does
    not go on. *)
Theorem manager_raises_when_waiter_gives_up response_success client config
    wfuel fuel s s0 s1 :
  num_tries (st_job s) < max_tries (st_job s) ->
  submit_or_adopt response_success client config s = (Return tt, s0) ->
  aio_batch_job_waiter client config wfuel s0 = (Return None, s1) ->
  aio_batch_job_manager response_success client config wfuel (S fuel) s =
  (Raise (TypeError "'NoneType' object is not subscriptable"), snd (db_save s1)).
Proof.
  intros Htries Hsubmit Hwait. cbn [aio_batch_job_manager].
  rewrite bind_get_job.
  replace (num_tries (st_job s) <? max_tries (st_job s)) with true by ltb_true.
  rewrite bind_eq, Hsubmit, bind_eq, Hwait, bind_eq, db_save_eq.
  reflexivity.
Qed.

Lemma manager_raises_when_waiter_gives_up_witness :
  fst (aio_batch_job_manager http_success (scripted_client []) (config_of 1) 2 1
         (state_of (submitted_job "J1") empty_table))
  = Raise (TypeError "'NoneType' object is not subscriptable").
Proof.
  rewrite (manager_raises_when_waiter_gives_up http_success (scripted_client [])
             (config_of 1) 2 0 (state_of (submitted_job "J1") empty_table)
             (state_of (submitted_job "J1") empty_table)
             (snd (aio_batch_job_waiter (scripted_client []) (config_of 1) 2
                     (state_of (submitted_job "J1") empty_table)))).
  - reflexivity.
  - simpl. lia.
  - reflexivity.
  - reflexivity.
Defined.


Lemma count_submit_logs (logged : list LogRecord) :
  count_events is_submit (List.map (fun r => Log (fst r) (snd r)) logged) = 0%nat.
Proof. unfold count_events. now induction logged. Qed.

Lemma db_save_extends : preserves extends db_save.
Proof. intros s. rewrite db_save_eq. now eexists. Qed.

Lemma submit_loop_extends response_success client config fuel tries :
  preserves extends (submit_loop response_success client config fuel tries).
Proof.
  apply (submit_loop_preserves response_success client config extends);
    try apply extends_refl; try apply extends_trans;
    try (step_frame; unfold extends; cbn [st_trace]; now eauto);
    step_frame; exists []; cbn [st_trace]; now rewrite List.app_nil_r.
Qed.

Lemma aio_batch_job_waiter_extends client config fuel :
  preserves extends (aio_batch_job_waiter client config fuel).
Proof.
  apply (aio_batch_job_waiter_preserves client config extends);
    try apply extends_refl; try apply extends_trans;
    try (step_frame; unfold extends; cbn [st_trace]; now eauto);
    step_frame; exists []; cbn [st_trace]; now rewrite List.app_nil_r.
Qed.

Lemma starts_with_bind {A B} e (m : M A) (f : A -> M B) s :
  starts_with e m s -> (forall a, preserves extends (f a)) ->
  starts_with e (m ≫= f) s.
Proof.
  intros [rest Hm] Hf. unfold starts_with. rewrite bind_eq.
  destruct (m s) as [[a|err|] s'] eqn:E; simpl in *; eauto.
  destruct (Hf a s') as [evs Hevs]. rewrite Hevs, Hm.
  exists (rest ++ evs)%list. now rewrite <- List.app_assoc.
Qed.

Lemma aio_batch_job_submit_starts response_success client config s :
  1 <= retries config ->
  starts_with (SubmitJob (params (st_job s)))
    (aio_batch_job_submit response_success client config) s.
Proof.
  intros Hretries. unfold aio_batch_job_submit.
  destruct (Z.to_nat (retries config)) as [|fuel] eqn:Hfuel; [lia|].
  cbn [submit_loop]. replace (0 <? retries config) with true by ltb_true.
  unfold starts_with. rewrite bind_get_job, bind_eq. cbn [api_call fst snd].
  match goal with
  | |- context [snd (?k ?s3)] =>
      assert (Hext : extends s3 (snd (k s3))); [|destruct Hext as [evs Hevs]]
  end.
  - destruct (submit_job client (st_calls s) (params (st_job s))) as [r|code].
    + rewrite bind_eq.
      destruct (response_success r); cbn; exists []; now rewrite List.app_nil_r.
    + destruct (is_throttle code); [|apply extends_refl].
      apply (preserves_bind extends extends_trans).
      * intros s'. destruct (0 + 1 <? retries config).
        -- now eexists.
        -- apply extends_refl.
      * intros _. apply submit_loop_extends.
  - rewrite Hevs. cbn [st_trace]. exists evs. now rewrite <- List.app_assoc.
Qed.

Lemma manager_resubmits response_success client config wfuel fuel s :
  1 <= retries config ->
  job_id (st_job s) = None ->
  num_tries (st_job s) < max_tries (st_job s) ->
  starts_with (SubmitJob (params (st_job s)))
    (aio_batch_job_manager response_success client config wfuel (S fuel)) s.
Proof.
  intros Hretries Hid Htries.
  unfold starts_with. cbn [aio_batch_job_manager]. rewrite bind_get_job.
  replace (num_tries (st_job s) <? max_tries (st_job s)) with true by ltb_true.
  apply starts_with_bind.
  - unfold starts_with, submit_or_adopt. rewrite bind_get_job, Hid.
    apply starts_with_bind; [now apply aio_batch_job_submit_starts|].
    intros _. apply db_save_extends.
  - intros _.
    apply (preserves_bind extends extends_trans);
      [apply aio_batch_job_waiter_extends|]. intros job_desc.
    apply (preserves_bind extends extends_trans); [apply db_save_extends|].
    intros _. destruct job_desc as [desc|]; [|intros s'; apply extends_refl].
    destruct (String.eqb (status desc) "SUCCEEDED");
      [intros s'; apply extends_refl|].
    destruct (String.eqb (status desc) "FAILED");
      [|intros s'; apply aio_batch_job_manager_extends].
    destruct (spot_failure desc); [|intros s'; apply extends_refl].
    apply (preserves_bind extends extends_trans); [intros s'; now eexists|].
    intros _ s'. rewrite bind_get_job.
    apply (preserves_bind extends extends_trans).
    + intros s''. exists []. cbn. now rewrite List.app_nil_r.
    + intros _.
      apply (preserves_bind extends extends_trans); [apply db_save_extends|].
      intros _ s''. apply aio_batch_job_manager_extends.
Qed.

(** After a FAILED description the manager goes by its test of the reason:
    it resets the job and goes round its loop again, or it returns the
    description and submits nothing more. *)
Lemma manager_after_failed_description response_success client config
    wfuel fuel s s0 s1 desc :
  1 <= retries config ->
  num_tries (st_job s) < max_tries (st_job s) ->
  submit_or_adopt response_success client config s = (Return tt, s0) ->
  aio_batch_job_waiter client config wfuel s0 = (Return (Some desc), s1) ->
  status desc = "FAILED" ->
  let out :=
    aio_batch_job_manager response_success client config wfuel (S (S fuel)) s in
  if spot_failure desc then
    exists s2,
      st_job s2 = reset (st_job s1) /\
      out = aio_batch_job_manager response_success client config wfuel (S fuel) s2 /\
      (num_tries (st_job s1) < max_tries (st_job s1) ->
       starts_with (SubmitJob (params (reset (st_job s1))))
         (aio_batch_job_manager response_success client config wfuel (S fuel)) s2) /\
      (max_tries (st_job s1) <= num_tries (st_job s1) -> fst out = Return None)
  else
    out = (Return (Some desc), snd (db_save s1)) /\
    count_events is_submit (st_trace (snd out)) =
    count_events is_submit (st_trace s0).
Proof.
  intros Hretries Htries Hsubmit Hwait Hfailed out. subst out.
  cbn [aio_batch_job_manager]. rewrite bind_get_job.
  replace (num_tries (st_job s) <? max_tries (st_job s)) with true by ltb_true.
  rewrite bind_eq, Hsubmit, bind_eq, Hwait, bind_eq, db_save_eq, Hfailed.
  cbn [String.eqb Ascii.eqb Bool.eqb].
  destruct (spot_failure desc).
  - rewrite bind_eq. cbn [log emit]. rewrite bind_get_job, bind_eq.
    cbn [set_job fst snd st_job st_db st_calls st_trace].
    rewrite bind_eq, db_save_eq. cbn [st_job st_db st_calls st_trace].
    eexists. split; [|split; [reflexivity|split]].
    + reflexivity.
    + intros Hmore. now apply manager_resubmits.
    + intros Hdone. cbn [aio_batch_job_manager]. rewrite bind_get_job.
      cbn [st_job reset num_tries max_tries].
      replace (num_tries (st_job s1) <? max_tries (st_job s1)) with false
        by ltb_false.
      reflexivity.
  - split; [reflexivity|]. cbn [mret M_ret m_ret snd st_trace].
    rewrite count_events_app, count_submit_logs, Nat.add_0_r.
    pose proof (aio_batch_job_waiter_waits client config wfuel s0) as Hw.
    rewrite Hwait in Hw. apply Hw.
Qed.

(** C3: when the waiter returns a FAILED description, the manager resets
    the job and goes round its loop again, where a job within [max_tries]
    is submitted anew, exactly when the [statusReason] matches
    [Host EC2.*terminated]: it begins with [Host EC2] and goes on, with no
    newline in between, to [terminated].  In every other case, a missing
    reason among them, the manager returns the description and submits
    nothing more.  So it resubmits on the reason
    [Host EC2 (instance abc) terminated] and returns the description on
    the reason [Dependent Job failed]. *)
Theorem manager_retries_spot_failures_only response_success client config
    wfuel fuel s s0 s1 desc :
  1 <= retries config ->
  num_tries (st_job s) < max_tries (st_job s) ->
  submit_or_adopt response_success client config s = (Return tt, s0) ->
  aio_batch_job_waiter client config wfuel s0 = (Return (Some desc), s1) ->
  status desc = "FAILED" ->
  let out :=
    aio_batch_job_manager response_success client config wfuel (S (S fuel)) s in
  let resubmits :=
    exists s2,
      st_job s2 = reset (st_job s1) /\
      out = aio_batch_job_manager response_success client config wfuel (S fuel) s2 /\
      (num_tries (st_job s1) < max_tries (st_job s1) ->
       starts_with (SubmitJob (params (reset (st_job s1))))
         (aio_batch_job_manager response_success client config wfuel (S fuel)) s2) /\
      (max_tries (st_job s1) <= num_tries (st_job s1) -> fst out = Return None) in
  let returns :=
    out = (Return (Some desc), snd (db_save s1)) /\
    count_events is_submit (st_trace (snd out)) =
    count_events is_submit (st_trace s0) in
  let matches_pattern :=
    exists middle rest,
      statusReason desc = Some ("Host EC2" ++ middle ++ "terminated" ++ rest) /\
      no_newline middle = true in
  (matches_pattern -> resubmits) /\
  (~ matches_pattern -> returns) /\
  (statusReason desc = Some "Host EC2 (instance abc) terminated" -> resubmits) /\
  (statusReason desc = Some "Dependent Job failed" -> returns).
Proof.
  intros Hretries Htries Hsubmit Hwait Hfailed out resubmits returns
    matches_pattern.
  pose proof (manager_after_failed_description response_success client config
                wfuel fuel s s0 s1 desc Hretries Htries Hsubmit Hwait Hfailed)
    as H.
  cbv zeta in H. fold out in H.
  assert (Hyes : spot_failure desc = true -> resubmits).
  { intros E. rewrite E in H. exact H. }
  assert (Hno : spot_failure desc = false -> returns).
  { intros E. rewrite E in H. exact H. }
  split; [|split; [|split]].
  - intros (middle & rest & Hreason & Hmiddle). apply Hyes.
    unfold spot_failure. rewrite Hreason. apply spot_pattern_matches.
    now exists middle, rest.
  - intros Hnot. apply Hno. unfold spot_failure.
    destruct (statusReason desc) as [reason|]; [|reflexivity].
    destruct (re_match spot_pattern reason) eqn:E; [|reflexivity].
    exfalso. apply Hnot.
    apply spot_pattern_matches in E as (middle & rest & -> & Hmiddle).
    now exists middle, rest.
  - intros Hreason. apply Hyes. unfold spot_failure. now rewrite Hreason.
  - intros Hreason. apply Hno. unfold spot_failure. now rewrite Hreason.
Qed.

Lemma manager_retries_spot_failures_only_witness :
  (exists s2,
     st_job s2 = reset (described (submitted_job "J3a") spot_desc) /\
     aio_batch_job_manager http_success (scripted_client spot_script) (config_of 5)
       3 3 spot_state =
     aio_batch_job_manager http_success (scripted_client spot_script) (config_of 5)
       3 2 s2 /\
     starts_with (SubmitJob (params (submitted_job "J3a")))
       (aio_batch_job_manager http_success (scripted_client spot_script)
          (config_of 5) 3 2) s2) /\
  (fst (aio_batch_job_manager http_success (scripted_client dependent_script)
          (config_of 5) 3 3 dependent_state) = Return (Some dependent_desc) /\
   count_events is_submit
     (st_trace
        (snd (aio_batch_job_manager http_success (scripted_client dependent_script)
                (config_of 5) 3 3 dependent_state))) = 0%nat).
Proof.
  split.
  - destruct (manager_retries_spot_failures_only http_success
                (scripted_client spot_script) (config_of 5) 3 1 spot_state
                spot_state
                (snd (aio_batch_job_waiter (scripted_client spot_script)
                        (config_of 5) 3 spot_state))
                spot_desc)
      as (_ & _ & Hspot & _).
    + simpl. lia.
    + simpl. lia.
    + reflexivity.
    + reflexivity.
    + reflexivity.
    + destruct (Hspot eq_refl) as (s2 & Hjob & Hout & Hmore & _).
      exists s2. split; [exact Hjob|]. split; [exact Hout|].
      apply Hmore. simpl. lia.
  - destruct (manager_retries_spot_failures_only http_success
                (scripted_client dependent_script) (config_of 5) 3 1
                dependent_state dependent_state
                (snd (aio_batch_job_waiter (scripted_client dependent_script)
                        (config_of 5) 3 dependent_state))
                dependent_desc)
      as (_ & _ & _ & Hdependent).
    + simpl. lia.
    + simpl. lia.
    + reflexivity.
    + reflexivity.
    + reflexivity.
    + destruct (Hdependent eq_refl) as [Hout Hcount].
      split; [now rewrite Hout | exact Hcount].
Defined.

(** The pattern on the two reasons of the comment in the manager. *)
Lemma spot_pattern_examples :
  re_match spot_pattern "Host EC2 (instance abc) terminated" = true /\
  re_match spot_pattern "Dependent Job failed" = false /\
  re_match spot_pattern "Essential container in task exited" = false.
Proof. repeat split. Qed.

(** A job of a reclaimed instance is submitted again and succeeds with its
    second id; a job whose dependency failed is returned as it failed, after
    one poll and no submission. *)
Lemma manager_spot_failure_example :
  let out := aio_batch_job_manager http_success (scripted_client spot_script)
               (config_of 5) 3 3 spot_state in
  fst out = Return (Some (desc_of "J3b" "SUCCEEDED" None 105)) /\
  job_tries (st_job (snd out)) = ["J3a"; "J3b"] /\
  num_tries (st_job (snd out)) = 2 /\
  count_events is_submit (st_trace (snd out)) = 1%nat.
Proof. repeat split. Qed.

Lemma manager_other_failure_example :
  let out := aio_batch_job_manager http_success (scripted_client dependent_script)
               (config_of 5) 3 3 dependent_state in
  fst out = Return (Some dependent_desc) /\
  job_tries (st_job (snd out)) = ["J4"] /\
  count_events is_submit (st_trace (snd out)) = 0%nat /\
  st_calls (snd out) = 1%nat.
Proof. repeat split. Qed.

(** A fresh job whose polls find no description: the manager submits it,
    saves it, and raises when the waiter has given up. *)
Lemma manager_fresh_job_gives_up_example :
  let out := aio_batch_job_manager http_success (scripted_client [Submitted "J1"])
               (config_of 1) 3 3 (state_of fresh_job empty_table) in
  fst out = Raise (TypeError "'NoneType' object is not subscriptable") /\
  List.map (fun r => doc_job_id (snd r)) (docs (st_db (snd out))) = [Some "J1"].
Proof. repeat split. Qed.


(** ** The constructor of a job *)

Lemma substring_0_length n : forall s, String.length (String.substring 0 n s) = Nat.min n (String.length s).
Proof.
  induction n as [|n IH]; intros [|c s]; simpl; try reflexivity.
  now rewrite IH.
Qed.

Lemma substring_0_prefix n : forall s,
  exists rest, s = String.substring 0 n s ++ rest.
Proof.
  induction n as [|n IH]; intros [|c s]; simpl.
  - now exists "".
  - now exists (String c s).
  - now exists "".
  - destruct (IH s) as [rest Hrest]. exists rest.
    change (String c (substring 0 n s) ++ rest)
      with (String c (substring 0 n s ++ rest)).
    now rewrite <- Hrest.
Qed.

Lemma substring_0_short n : forall s,
  (String.length s <= n)%nat -> String.substring 0 n s = s.
Proof.
  induction n as [|n IH]; intros [|c s] Hlen; simpl in *; try reflexivity.
  - lia.
  - rewrite IH by lia. reflexivity.
Qed.

Lemma take128_idempotent s : take128 (take128 s) = take128 s.
Proof.
  unfold take128. apply substring_0_short. rewrite substring_0_length. lia.
Qed.

(** The name of a job is the first 128 characters of the name given: it
    begins the name given, it has 128 characters when the name given has
    that many or more, and it is the name given when that has no more. *)
Theorem job_name_truncated name queue definition cmd deps overrides
    a_job_id a_status tries n m submission description :
  let job := new_AWSBatchJob name queue definition cmd deps overrides
               a_job_id a_status tries n m submission description in
  (String.length (job_name job) <= 128)%nat /\
  (exists rest, name = job_name job ++ rest) /\
  ((String.length name <= 128)%nat -> job_name job = name) /\
  ((128 <= String.length name)%nat -> String.length (job_name job) = 128%nat) /\
  String.length (job_name job) = Nat.min 128 (String.length name).
Proof.
  simpl. unfold take128. split; [|split; [|split; [|split]]].
  - rewrite substring_0_length. lia.
  - apply substring_0_prefix.
  - apply substring_0_short.
  - intros Hlong. rewrite substring_0_length. lia.
  - apply substring_0_length.
Qed.

(** A command that is not empty is the override [command] of the job, also
    when the overrides given have a command of their own; every other
    override is as given, and without a command the overrides are as
    given. *)
Theorem command_overrides name queue definition cmd deps overrides
    a_job_id a_status tries n m submission description :
  let job := new_AWSBatchJob name queue definition cmd deps overrides
               a_job_id a_status tries n m submission description in
  (forall c cs, cmd = Some (c :: cs) ->
     container_overrides job !! "command" = Some (OStrs (c :: cs))) /\
  (forall key, key <> "command" ->
     container_overrides job !! key = default ∅ overrides !! key) /\
  (cmd = None \/ cmd = Some [] -> container_overrides job = default ∅ overrides).
Proof.
  simpl. split; [|split].
  - intros c cs ->. simpl. apply lookup_insert_eq.
  - intros key Hkey. destruct (command_truthy cmd); [|reflexivity].
    now apply lookup_insert_ne.
  - intros [->| ->]; reflexivity.
Qed.

(** A job rebuilt from its own row is the job: the constructor is at rest on
    the jobs it builds. *)
Theorem job_of_document_db_data name queue definition cmd deps overrides
    a_job_id a_status tries n m submission description :
  let job := new_AWSBatchJob name queue definition cmd deps overrides
               a_job_id a_status tries n m submission description in
  job_of_document (db_data job) = job.
Proof.
  simpl. unfold job_of_document, new_AWSBatchJob. simpl.
  rewrite take128_idempotent. f_equal.
  destruct (command_truthy cmd); [|reflexivity].
  apply insert_insert_eq.
Qed.

(** ** The times of a job *)

Lemma stamp_value key field job t :
  stamp key field job = Value (Some t) <->
  exists job_desc, job_description job = Some job_desc /\ field job_desc = Some t.
Proof.
  unfold stamp. destruct (job_description job) as [job_desc|].
  - destruct (field job_desc) as [u|] eqn:Hu.
    + split.
      * intros H. injection H as ->. eauto.
      * intros (d & Hd & Ht). injection Hd as <-. congruence.
    + split; [discriminate|]. intros (d & Hd & Ht). injection Hd as <-. congruence.
  - split; [discriminate|]. intros (d & Hd & _). discriminate.
Qed.

Lemma difference_value a b e :
  difference a b = Some e <->
  exists x y, a = Some x /\ b = Some y /\ x <> 0 /\ y <> 0 /\ e = x - y.
Proof.
  unfold difference. destruct a as [x|], b as [y|]; simpl;
    try (split; [discriminate | intros (? & ? & ? & ? & _); discriminate]).
  destruct (Z.eqb_spec x 0) as [Hx|Hx], (Z.eqb_spec y 0) as [Hy|Hy]; simpl;
    split; try discriminate;
    try (intros (x' & y' & [= <-] & [= <-] & ? & ? & _); contradiction).
  - intros [= <-]. now exists x, y.
  - intros (x' & y' & [= <-] & [= <-] & _ & _ & ->). reflexivity.
Qed.

(** [elapsed] is a number exactly when the description has [createdAt] and
    [stoppedAt] and neither is 0: then it is their difference.  It is a
    [KeyError] exactly when there is a description and it lacks one of the
    two keys. *)
Theorem elapsed_cases job :
  (forall e, elapsed job = Value (Some e) <->
     exists job_desc c t,
       job_description job = Some job_desc /\
       createdAt job_desc = Some c /\ stoppedAt job_desc = Some t /\
       c <> 0 /\ t <> 0 /\ e = t - c) /\
  ((exists key, elapsed job = KeyError key) <->
     exists job_desc,
       job_description job = Some job_desc /\
       (createdAt job_desc = None \/ stoppedAt job_desc = None)).
Proof.
  unfold elapsed, created, stopped, stamp.
  destruct (job_description job) as [job_desc|]; cbn -[difference].
  - destruct (createdAt job_desc) as [c|] eqn:Hc; cbn -[difference];
      [destruct (stoppedAt job_desc) as [t|] eqn:Ht; cbn -[difference]|].
    + split.
      * intros e. unfold mret, Access_ret. split.
        -- intros [= He]. apply (difference_value (Some t) (Some c)) in He
             as (x & y & [= <-] & [= <-] & Hx & Hy & ->).
           exists job_desc, c, t. now repeat split.
        -- intros (d & c' & t' & [= <-] & Hc' & Ht' & Hcz & Htz & ->).
           rewrite Hc in Hc'. rewrite Ht in Ht'.
           injection Hc' as <-. injection Ht' as <-. f_equal.
           apply difference_value. exists t, c. now repeat split.
      * split; [intros [key H]; discriminate|].
        intros (d & [= <-] & [H|H]); congruence.
    + split.
      * intros e. split; [discriminate|].
        intros (d & c' & t' & [= <-] & _ & Ht' & _). congruence.
      * split; [|now eexists]. intros _. exists job_desc. split; [reflexivity|tauto].
    + split.
      * intros e. split; [discriminate|].
        intros (d & c' & t' & [= <-] & Hc' & _). congruence.
      * split; [|now eexists]. intros _. exists job_desc. split; [reflexivity|tauto].
  - split.
    + intros e. split; [discriminate|]. intros (d & c & t & H & _). discriminate.
    + split; [intros [key H]; discriminate|]. intros (d & H & _). discriminate.
Qed.

(** When the three times of a job are numbers, the time elapsed is the time
    to spin up and the time to run. *)
Theorem elapsed_spinup_runtime job e u r :
  elapsed job = Value (Some e) ->
  spinup job = Value (Some u) ->
  runtime job = Value (Some r) ->
  e = u + r.
Proof.
  unfold elapsed, spinup, runtime, created, started, stopped, stamp.
  destruct (job_description job) as [job_desc|]; cbn -[difference]; [|discriminate].
  destruct (createdAt job_desc) as [c|]; cbn -[difference]; [|discriminate].
  destruct (startedAt job_desc) as [b|]; cbn -[difference]; [|discriminate].
  destruct (stoppedAt job_desc) as [t|]; cbn -[difference]; [|discriminate].
  unfold mret, Access_ret. intros [= He] [= Hu] [= Hr].
  apply (difference_value (Some t) (Some c)) in He
    as (? & ? & [= <-] & [= <-] & _ & _ & ->).
  apply (difference_value (Some b) (Some c)) in Hu
    as (? & ? & [= <-] & [= <-] & _ & _ & ->).
  apply (difference_value (Some t) (Some b)) in Hr
    as (? & ? & [= <-] & [= <-] & _ & _ & ->).
  lia.
Qed.

Lemma elapsed_spinup_runtime_witness :
  elapsed timed_job = Value (Some 3000) /\
  spinup timed_job = Value (Some 600) /\
  runtime timed_job = Value (Some 2400) /\
  3000 = 600 + 2400.
Proof.
  split; [reflexivity|]. split; [reflexivity|]. split; [reflexivity|].
  apply (elapsed_spinup_runtime timed_job 3000 600 2400); reflexivity.
Defined.

(** ** The rows of the database *)

Lemma query_job_id_true v d : query_job_id v d = true <-> doc_job_id d = v.
Proof. unfold query_job_id. apply bool_decide_eq_true. Qed.

Lemma query_job_name_true v d : query_job_name v d = true <-> doc_job_name d = v.
Proof. unfold query_job_name. apply bool_decide_eq_true. Qed.

Lemma find_by_job_id_found t a_job_id :
  (forall r, find_by_job_id t a_job_id = Some r ->
     In r (docs t) /\ doc_job_id (snd r) = a_job_id /\ truthy a_job_id = true) /\
  (find_by_job_id t a_job_id = None <->
     truthy a_job_id = false \/
     forall r, In r (docs t) -> doc_job_id (snd r) <> a_job_id).
Proof.
  unfold find_by_job_id, tdb_get. destruct (truthy a_job_id); split.
  - intros r Hr. apply List.find_some in Hr as [Hin Hq].
    apply query_job_id_true in Hq. now repeat split.
  - split.
    + intros Hnone. right. intros r Hin Hid.
      apply (List.find_none _ _ Hnone) in Hin.
      apply query_job_id_true in Hid. simpl in Hin. congruence.
    + intros [H|H]; [discriminate|].
      destruct (List.find _ (docs t)) as [r|] eqn:Hr; [|reflexivity].
      apply List.find_some in Hr as [Hin Hq].
      apply query_job_id_true in Hq. now apply H in Hin.
  - discriminate.
  - split; [now left | reflexivity].
Qed.

(** A row found by [find_by_job_id] is a row of the table with that job id,
    which is not empty; no row is found exactly when the id is none or
    empty, or no row of the table has it. *)
Theorem find_by_job_id_row t a_job_id :
  (forall r, find_by_job_id t a_job_id = Some r ->
     In r (docs t) /\ doc_job_id (snd r) = a_job_id /\ truthy a_job_id = true) /\
  (find_by_job_id t a_job_id = None <->
     truthy a_job_id = false \/
     forall r, In r (docs t) -> doc_job_id (snd r) <> a_job_id).
Proof. exact (find_by_job_id_found t a_job_id). Qed.

Lemma save_table job t :
  truthy (job_id job) = true ->
  fst (fst (save job t)) =
  match tdb_search (query_job_id (job_id job)) t with
  | [] => {| docs := docs t ++ [(S (last_id t), db_data job)];
             last_id := S (last_id t) |}
  | _ :: _ => {| docs := List.map (update_row (db_data job)
                                     (query_job_id (job_id job))) (docs t);
                 last_id := last_id t |}
  end.
Proof.
  intros Hid. unfold save. rewrite Hid. unfold tdb_upsert, tdb_update, tdb_insert.
  now destruct (tdb_search (query_job_id (job_id job)) t).
Qed.

Lemma save_finds_job_name job t :
  truthy (job_id job) = true -> job_name job <> "" ->
  exists rows i,
    find_by_job_name (fst (fst (save job t))) (job_name job) = Some rows /\
    In (i, db_data job) rows /\
    (forall r, In r rows -> doc_job_name (snd r) = job_name job).
Proof.
  intros Hid Hname. unfold find_by_job_name.
  assert (Htruthy : truthy (Some (job_name job)) = true).
  { simpl. destruct (String.eqb_spec (job_name job) ""); [contradiction|reflexivity]. }
  rewrite Htruthy. pose proof (save_effect job t) as H. simpl in H.
  rewrite Hid in H. destruct H as ((ids & _ & Hne & Hids) & Hall & _).
  destruct (tdb_search (query_job_id (job_id job)) (save job t).1.1)
    as [|[i d] rs] eqn:Hs; [simpl in Hids; contradiction|].
  inversion Hall as [|? ? Hd _]; subst. simpl in Hd. subst d.
  assert (Hin : In (i, db_data job) (tdb_search (query_job_id (job_id job)) (save job t).1.1))
    by (rewrite Hs; now left).
  apply search_In in Hin as [Hin _].
  eexists. exists i. split; [reflexivity|]. split.
  - apply search_In. split; [exact Hin|]. now apply query_job_name_true.
  - intros r Hr. apply search_In in Hr as [_ Hr]. now apply query_job_name_true.
Qed.

(** After [save] of a job with an id and a name, [find_by_job_name] of the
    name finds its row, among rows of that name only. *)
Theorem save_find_by_job_name job t :
  truthy (job_id job) = true -> job_name job <> "" ->
  exists rows i,
    find_by_job_name (fst (fst (save job t))) (job_name job) = Some rows /\
    In (i, db_data job) rows /\
    (forall r, In r rows -> doc_job_name (snd r) = job_name job).
Proof. exact (save_finds_job_name job t). Qed.

Lemma save_find_by_job_name_witness :
  exists rows i,
    find_by_job_name (fst (fst (save (job_with "J5b" "SUCCEEDED" 105)
                                  (fst (fst (save (job_with "J5a" "FAILED" 100) empty_table))))))
      "t-0000" = Some rows /\
    In (i, db_data (job_with "J5b" "SUCCEEDED" 105)) rows /\
    (forall r, In r rows -> doc_job_name (snd r) = "t-0000").
Proof.
  apply (save_find_by_job_name (job_with "J5b" "SUCCEEDED" 105)
           (fst (fst (save (job_with "J5a" "FAILED" 100) empty_table)))).
  - reflexivity.
  - discriminate.
Defined.

(** Saving a job a second time changes nothing more: the table is the one
    of the first [save], and the same [doc_id] come back. *)
Theorem save_twice job t :
  save job (fst (fst (save job t))) = save job t.
Proof.
  pose proof (save_effect job t) as H1.
  pose proof (save_effect job (fst (fst (save job t)))) as H2. simpl in H1, H2.
  destruct (truthy (job_id job)) eqn:Hid.
  - destruct H1 as ((ids & Hsave & Hne & Hids) & Hall & _).
    destruct H2 as ((ids' & Hsave' & _ & Hids') & _ & _ & Hsame).
    assert (Heq : fst (fst (save job (fst (fst (save job t))))) = fst (fst (save job t))).
    { apply Hsame. split; [|exact Hall]. intros Hnil.
      rewrite Hnil in Hids. simpl in Hids. contradiction. }
    rewrite Hsave', Hids', Heq, <- Hids. symmetry. exact Hsave.
  - rewrite H1. simpl. unfold save. now rewrite Hid.
Qed.

Lemma map_fst_update fields cond l :
  List.map fst (List.map (update_row fields cond) l) = List.map fst l.
Proof.
  rewrite List.map_map. apply List.map_ext. intros r. unfold update_row.
  now destruct (cond (snd r)).
Qed.

Lemma map_job_id_update fields v l :
  doc_job_id fields = v ->
  List.map (fun r => doc_job_id (snd r))
    (List.map (update_row fields (query_job_id v)) l) =
  List.map (fun r => doc_job_id (snd r)) l.
Proof.
  intros Hv. rewrite List.map_map. apply List.map_ext. intros r.
  unfold update_row. destruct (query_job_id v (snd r)) eqn:Hq; [|reflexivity].
  apply query_job_id_true in Hq. simpl. congruence.
Qed.

Lemma filter_nil_iff {A} (p : A -> bool) l :
  List.filter p l = [] <-> forall x, In x l -> p x = false.
Proof.
  induction l as [|a l IH]; simpl.
  - split; [intros _ x [] | reflexivity].
  - destruct (p a) eqn:Ha.
    + split; [discriminate|]. intros H. specialize (H a (or_introl eq_refl)).
      congruence.
    + rewrite IH. split.
      * intros H x [<-|Hx]; [exact Ha | now apply H].
      * intros H x Hx. apply H. now right.
Qed.

Lemma filter_all {A} (p : A -> bool) l :
  (forall x, In x l -> p x = true) -> List.filter p l = l.
Proof.
  induction l as [|a l IH]; simpl; intros H; [reflexivity|].
  rewrite (H a (or_introl eq_refl)). f_equal. apply IH. intros x Hx.
  apply H. now right.
Qed.

Lemma NoDup_map_filter {A B} (f : A -> B) (p : A -> bool) l :
  List.NoDup (List.map f l) -> List.NoDup (List.map f (List.filter p l)).
Proof.
  induction l as [|a l IH]; simpl; intros H; [exact H|].
  apply List.NoDup_cons_iff in H as [Ha Hl].
  destruct (p a); [|now apply IH]. simpl. apply List.NoDup_cons; [|now apply IH].
  intros Hin. apply Ha. apply List.in_map_iff in Hin as (x & Hx & Hin).
  apply List.filter_In in Hin as [Hin _]. apply List.in_map_iff. eauto.
Qed.

Lemma NoDup_map_eq {A B} (f : A -> B) l a b :
  List.NoDup (List.map f l) -> In a l -> In b l -> f a = f b -> a = b.
Proof.
  induction l as [|x l IH]; simpl; intros H Ha Hb Hf; [contradiction|].
  apply List.NoDup_cons_iff in H as [Hx Hl].
  destruct Ha as [<-|Ha], Hb as [<-|Hb]; try reflexivity.
  - exfalso. apply Hx. rewrite Hf. now apply List.in_map.
  - exfalso. apply Hx. rewrite <- Hf. now apply List.in_map.
  - now apply IH.
Qed.

Lemma well_kept_remove ids t : well_kept t -> well_kept (tdb_remove ids t).
Proof.
  intros (Hids & Hlast & Hjobs & Hrows). unfold well_kept, rows_have_id, tdb_remove.
  simpl. repeat split.
  - now apply NoDup_map_filter.
  - apply List.Forall_forall. intros r Hr. apply List.filter_In in Hr as [Hr _].
    exact (proj1 (List.Forall_forall _ _) Hlast r Hr).
  - now apply (NoDup_map_filter (fun r => doc_job_id (snd r))).
  - apply List.Forall_forall. intros r Hr. apply List.filter_In in Hr as [Hr _].
    exact (proj1 (List.Forall_forall _ _) Hrows r Hr).
Qed.

(** The operations of the database keep its table in order: [doc_id]
    distinct and not after the last one given, one row at most for a job
    id, a job id in every row. *)
Theorem database_well_kept :
  well_kept empty_table /\
  forall t, well_kept t ->
    (forall job, well_kept (fst (fst (save job t)))) /\
    (forall a_job_id, well_kept (fst (remove_by_job_id t a_job_id))) /\
    (forall a_job_name, well_kept (fst (remove_by_job_name t a_job_name))).
Proof.
  split; [repeat split; constructor|].
  intros t Ht. split; [|split].
  - intros job. destruct (truthy (job_id job)) eqn:Hid.
    + destruct Ht as (Hids & Hlast & Hjobs & Hrows).
      split; [|split; [|split; [|now apply rows_have_id_save]]];
        rewrite (save_table job t Hid);
        destruct (tdb_search (query_job_id (job_id job)) t) as [|r rs] eqn:Hs;
        simpl.
      * rewrite List.map_app. simpl. apply List.NoDup_app; [exact Hids| |].
        { repeat constructor. intros []. }
        intros i Hi [<-|[]]. apply List.in_map_iff in Hi as (r & Hr & Hin).
        apply (proj1 (List.Forall_forall _ _) Hlast) in Hin. lia.
      * now rewrite map_fst_update.
      * apply List.Forall_app. split; [|repeat constructor].
        apply List.Forall_forall. intros r Hr.
        apply (proj1 (List.Forall_forall _ _) Hlast) in Hr. lia.
      * apply List.Forall_forall. intros r' Hr'.
        apply List.in_map_iff in Hr' as (r0 & <- & Hr0).
        apply (proj1 (List.Forall_forall _ _) Hlast) in Hr0.
        unfold update_row. now destruct (query_job_id _ _).
      * rewrite List.map_app. simpl. apply List.NoDup_app; [exact Hjobs| |].
        { repeat constructor. intros []. }
        intros i Hi [<-|[]]. apply List.in_map_iff in Hi as (r & Hr & Hin).
        assert (Hsearch : In r (tdb_search (query_job_id (job_id job)) t)).
        { apply search_In. split; [exact Hin|]. now apply query_job_id_true. }
        now rewrite Hs in Hsearch.
      * now rewrite map_job_id_update.
    + unfold save. now rewrite Hid.
  - intros a_job_id. unfold remove_by_job_id.
    destruct (truthy a_job_id); [|exact Ht].
    destruct (find_by_job_id t a_job_id); [|exact Ht].
    now apply well_kept_remove.
  - intros a_job_name. unfold remove_by_job_name.
    destruct (truthy (Some a_job_name)); [|exact Ht].
    destruct (find_by_job_name t a_job_name) as [[|r rs]|]; try exact Ht.
    now apply well_kept_remove.
Qed.

Lemma database_well_kept_witness :
  well_kept (fst (fst (save (job_with "J5b" "SUCCEEDED" 105) saved_once))) /\
  well_kept (fst (remove_by_job_id saved_once (Some "J1"))) /\
  well_kept (fst (remove_by_job_name saved_once "t-0000")).
Proof.
  destruct database_well_kept as [_ Hkept].
  destruct (Hkept saved_once) as (Hsave & Hid & Hname).
  - repeat split; repeat constructor; simpl; intuition discriminate.
  - split; [apply Hsave | split; [apply Hid | apply Hname]].
Defined.

Lemma filter_absorb {A} (p q : A -> bool) l :
  (forall x, In x l -> p x = true -> q x = true) ->
  List.filter p (List.filter q l) = List.filter p l.
Proof.
  induction l as [|a l IH]; simpl; intros H; [reflexivity|].
  assert (IH' : List.filter p (List.filter q l) = List.filter p l).
  { apply IH. intros x Hx. apply H. now right. }
  destruct (q a) eqn:Hq; simpl; [now rewrite IH'|].
  destruct (p a) eqn:Hp; [|exact IH'].
  rewrite (H a (or_introl eq_refl) Hp) in Hq. discriminate.
Qed.

Lemma remove_docs ids t r :
  In r (docs (tdb_remove ids t)) <-> In r (docs t) /\ ~ In (fst r) ids.
Proof.
  unfold tdb_remove. simpl. rewrite List.filter_In, negb_true_iff, bool_decide_eq_false.
  rewrite list_elem_of_In. tauto.
Qed.

(** In a table in order, [remove_by_job_id] returns the row that
    [find_by_job_id] finds; afterwards no row of that id is found, and the
    rows of other ids are as before.  When nothing is found the table is
    left as it is. *)
Theorem remove_by_job_id_removes t a_job_id :
  well_kept t ->
  snd (remove_by_job_id t a_job_id) = find_by_job_id t a_job_id /\
  find_by_job_id (fst (remove_by_job_id t a_job_id)) a_job_id = None /\
  other_ids a_job_id (fst (remove_by_job_id t a_job_id)) = other_ids a_job_id t /\
  (find_by_job_id t a_job_id = None -> fst (remove_by_job_id t a_job_id) = t).
Proof.
  intros (Hids & _ & Hjobs & _).
  destruct (find_by_job_id_found t a_job_id) as [Hsome Hnone].
  unfold remove_by_job_id. destruct (truthy a_job_id) eqn:Htruthy.
  - destruct (find_by_job_id t a_job_id) as [r|] eqn:Hfind; simpl.
    + destruct (Hsome r eq_refl) as (Hin & Hid & _).
      split; [reflexivity|]. split; [|split; [|discriminate]].
      * apply (find_by_job_id_found (tdb_remove [fst r] t) a_job_id). right.
        intros r' Hr' Hid'. apply remove_docs in Hr' as [Hr' Hne].
        apply Hne. left. f_equal.
        apply (NoDup_map_eq (fun r => doc_job_id (snd r)) (docs t)); try assumption.
        congruence.
      * unfold other_ids, tdb_remove. simpl. apply filter_absorb.
        intros r' Hr' Hq. apply negb_true_iff in Hq.
        apply negb_true_iff, bool_decide_eq_false. rewrite list_elem_of_In.
        intros [Heq|[]].
        assert (r = r') by (apply (NoDup_map_eq fst (docs t)); assumption).
        subst r'. apply query_job_id_true in Hid. congruence.
    + repeat split. exact Hfind.
  - unfold find_by_job_id. rewrite Htruthy. repeat split.
Qed.

Lemma remove_by_job_id_removes_witness :
  snd (remove_by_job_id failed_then_succeeded (Some "J5a"))
    = find_by_job_id failed_then_succeeded (Some "J5a") /\
  find_by_job_id (fst (remove_by_job_id failed_then_succeeded (Some "J5a"))) (Some "J5a")
    = None /\
  other_ids (Some "J5a") (fst (remove_by_job_id failed_then_succeeded (Some "J5a")))
    = other_ids (Some "J5a") failed_then_succeeded /\
  (find_by_job_id failed_then_succeeded (Some "J5a") = None ->
   fst (remove_by_job_id failed_then_succeeded (Some "J5a")) = failed_then_succeeded).
Proof.
  apply (remove_by_job_id_removes failed_then_succeeded (Some "J5a")).
  repeat split; repeat constructor; simpl; intuition discriminate.
Defined.

(** [remove_by_job_name] of a name that is not empty returns the rows that
    [find_by_job_name] finds; afterwards no row of that name is found, and
    when the [doc_id] are distinct the rows of other names are as before. *)
Theorem remove_by_job_name_removes t a_job_name :
  a_job_name <> "" ->
  snd (remove_by_job_name t a_job_name) = find_by_job_name t a_job_name /\
  find_by_job_name (fst (remove_by_job_name t a_job_name)) a_job_name = Some [] /\
  (List.NoDup (List.map fst (docs t)) ->
   other_names a_job_name (fst (remove_by_job_name t a_job_name))
   = other_names a_job_name t).
Proof.
  intros Hname.
  assert (Htruthy : truthy (Some a_job_name) = true).
  { simpl. destruct (String.eqb_spec a_job_name ""); [contradiction|reflexivity]. }
  unfold remove_by_job_name, find_by_job_name. rewrite Htruthy.
  destruct (tdb_search (query_job_name a_job_name) t) as [|r rs] eqn:Hs; simpl.
  - rewrite Hs. repeat split.
  - split; [reflexivity|]. split.
    + f_equal. apply filter_nil_iff. intros r' Hr'.
      apply remove_docs in Hr' as [Hr' Hne].
      destruct (query_job_name a_job_name (snd r')) eqn:Hq; [|reflexivity].
      exfalso. apply Hne.
      change (fst r :: List.map fst rs) with (List.map fst (r :: rs)).
      rewrite <- Hs. apply List.in_map. apply search_In. now split.
    + intros Hids. unfold other_names, tdb_remove. simpl.
      apply filter_absorb. intros r' Hr' Hq. apply negb_true_iff in Hq.
      apply negb_true_iff, bool_decide_eq_false. rewrite list_elem_of_In.
      change (fst r :: List.map fst rs) with (List.map fst (r :: rs)).
      rewrite <- Hs. intros Hin. apply List.in_map_iff in Hin as (r2 & Hfst & Hr2).
      apply search_In in Hr2 as [Hr2 Hq2].
      assert (r2 = r') by (apply (NoDup_map_eq fst (docs t)); assumption).
      subst r2. congruence.
Qed.

Lemma remove_by_job_name_removes_witness :
  snd (remove_by_job_name failed_then_succeeded "t-0000")
    = find_by_job_name failed_then_succeeded "t-0000" /\
  find_by_job_name (fst (remove_by_job_name failed_then_succeeded "t-0000")) "t-0000"
    = Some [] /\
  (List.NoDup (List.map fst (docs failed_then_succeeded)) ->
   other_names "t-0000" (fst (remove_by_job_name failed_then_succeeded "t-0000"))
   = other_names "t-0000" failed_then_succeeded).
Proof.
  apply (remove_by_job_name_removes failed_then_succeeded "t-0000"). discriminate.
Defined.

(** A job saved under an id that the table in order did not have, and then
    removed by that id: the removed row is the row of the job, and the rows
    of the table are those from before the [save]. *)
Theorem save_then_remove job t :
  well_kept t -> truthy (job_id job) = true ->
  find_by_job_id t (job_id job) = None ->
  snd (remove_by_job_id (fst (fst (save job t))) (job_id job))
    = Some (S (last_id t), db_data job) /\
  docs (fst (remove_by_job_id (fst (fst (save job t))) (job_id job))) = docs t.
Proof.
  intros (_ & Hlast & _ & _) Hid Hnone.
  assert (Hs : tdb_search (query_job_id (job_id job)) t = []).
  { apply filter_nil_iff. intros r Hr.
    apply (find_by_job_id_found t (job_id job)) in Hnone as [Hf|Hno]; [congruence|].
    destruct (query_job_id (job_id job) (snd r)) eqn:Hq; [|reflexivity].
    apply query_job_id_true in Hq. now apply Hno in Hr. }
  rewrite (save_table job t Hid), Hs.
  unfold remove_by_job_id, find_by_job_id. rewrite Hid, get_hd_search.
  unfold tdb_search in *. simpl. rewrite List.filter_app, Hs. simpl.
  rewrite query_job_id_db_data. simpl. split; [reflexivity|].
  rewrite List.filter_app. simpl.
  rewrite bool_decide_eq_true_2 by (apply list_elem_of_In; now left). simpl.
  rewrite List.app_nil_r. apply filter_all. intros r Hr.
  apply negb_true_iff, bool_decide_eq_false. rewrite list_elem_of_In.
  intros [Heq|[]]. apply (proj1 (List.Forall_forall _ _) Hlast) in Hr. lia.
Qed.

Lemma save_then_remove_witness :
  snd (remove_by_job_id (fst (fst (save (job_with "J5b" "SUCCEEDED" 105) saved_once)))
         (Some "J5b"))
    = Some (2%nat, db_data (job_with "J5b" "SUCCEEDED" 105)) /\
  docs (fst (remove_by_job_id (fst (fst (save (job_with "J5b" "SUCCEEDED" 105) saved_once)))
               (Some "J5b")))
    = docs saved_once.
Proof.
  apply (save_then_remove (job_with "J5b" "SUCCEEDED" 105) saved_once).
  - repeat split; repeat constructor; simpl; intuition discriminate.
  - reflexivity.
  - reflexivity.
Defined.

(** ** The jobs to run *)

(** The jobs of [find_jobs_to_run] are the rows of the table that are not
    SUCCEEDED jobs; a job saved with an id is among them exactly when it is
    not a SUCCEEDED job. *)
Theorem find_jobs_to_run_saved job t :
  truthy (job_id job) = true ->
  (forall found, In found (find_jobs_to_run (fst (fst (save job t)))) ->
     succeeded found = false) /\
  (In (job_of_document (db_data job)) (find_jobs_to_run (fst (fst (save job t))))
   <-> succeeded job = false).
Proof.
  intros Hid. unfold find_jobs_to_run, tdb_all. split.
  - intros found Hfound. apply List.filter_In in Hfound as [_ H].
    now apply negb_true_iff.
  - rewrite List.filter_In, negb_true_iff, job_of_document_succeeded. simpl.
    fold (succeeded job). split; [tauto|]. intros Hs. split; [|exact Hs].
    pose proof (save_effect job t) as H. simpl in H. rewrite Hid in H.
    destruct H as ((ids & _ & Hne & Hids) & Hall & _).
    destruct (tdb_search (query_job_id (job_id job)) (save job t).1.1)
      as [|[i d] rs] eqn:Hsearch; [simpl in Hids; contradiction|].
    inversion Hall as [|? ? Hd _]; subst. simpl in Hd. subst d.
    assert (Hin : In (i, db_data job)
                    (tdb_search (query_job_id (job_id job)) (save job t).1.1))
      by (rewrite Hsearch; now left).
    apply search_In in Hin as [Hin _].
    apply List.in_map_iff. now exists (i, db_data job).
Qed.

Lemma find_jobs_to_run_saved_witness :
  (forall found,
     In found (find_jobs_to_run (fst (fst (save (job_with "J5a" "FAILED" 100) saved_once)))) ->
     succeeded found = false) /\
  (In (job_of_document (db_data (job_with "J5a" "FAILED" 100)))
      (find_jobs_to_run (fst (fst (save (job_with "J5a" "FAILED" 100) saved_once))))
   <-> succeeded (job_with "J5a" "FAILED" 100) = false).
Proof.
  apply (find_jobs_to_run_saved (job_with "J5a" "FAILED" 100) saved_once).
  reflexivity.
Defined.

Lemma filter_idempotent {A} (p : A -> bool) l :
  List.filter p (List.filter p l) = List.filter p l.
Proof. apply filter_absorb. auto. Qed.

Lemma filter_sublist {A} (p : A -> bool) l : sublist (List.filter p l) l.
Proof.
  induction l as [|a l IH]; simpl; [constructor|].
  destruct (p a); now constructor.
Qed.

(** [jobs_to_run] keeps the order of the jobs it is given, decides on each
    job apart from the others, and has nothing to drop from its own
    result. *)
Theorem jobs_to_run_selects jobs1 jobs2 db :
  sublist (jobs_to_run jobs1 db) jobs1 /\
  jobs_to_run (jobs1 ++ jobs2) db
    = (jobs_to_run jobs1 db ++ jobs_to_run jobs2 db)%list /\
  jobs_to_run (jobs_to_run jobs1 db) db = jobs_to_run jobs1 db.
Proof.
  rewrite !jobs_to_run_filter. split; [|split].
  - apply filter_sublist.
  - apply List.filter_app.
  - apply filter_idempotent.
Qed.

(** Once a SUCCEEDED job is saved under a name that the table did not
    have, no job of that name is to run, whatever its own id and status. *)
Theorem jobs_to_run_after_success done t jobs job :
  truthy (job_id done) = true -> job_status done = Some "SUCCEEDED" ->
  job_name done <> "" ->
  (forall r, In r (docs t) -> doc_job_name (snd r) <> job_name done) ->
  job_name job = job_name done ->
  ~ In job (jobs_to_run jobs (fst (fst (save done t)))).
Proof.
  intros Hid Hstatus Hname Hfresh Hsame Hin.
  apply In_jobs_to_run in Hin as (_ & Hsaved & _).
  unfold saved_succeeded in Hsaved. rewrite Hsame in Hsaved.
  destruct (save_finds_job_name done t Hid Hname) as (rows & i & Hfind & Hrow & _).
  rewrite Hfind in Hsaved. destruct rows as [|r rs]; [contradiction|].
  assert (Hr : snd r = db_data done).
  { assert (Hr : In r (tdb_search (query_job_name (job_name done)) (save done t).1.1)).
    { unfold find_by_job_name in Hfind.
      destruct (truthy (Some (job_name done))); [|discriminate].
      injection Hfind as ->. now left. }
    apply search_In in Hr as [Hr Hq]. apply query_job_name_true in Hq.
    rewrite (save_table done t Hid) in Hr.
    destruct (tdb_search (query_job_id (job_id done)) t); simpl in Hr.
    - apply List.in_app_or in Hr as [Hr|[<-|[]]]; [|reflexivity].
      now apply Hfresh in Hr.
    - apply List.in_map_iff in Hr as (r0 & <- & Hr0). unfold update_row in *.
      destruct (query_job_id (job_id done) (snd r0)); [reflexivity|].
      now apply Hfresh in Hr0. }
  rewrite Hr, job_of_document_succeeded in Hsaved. simpl in Hsaved.
  rewrite Hid, Hstatus in Hsaved. discriminate.
Qed.

Lemma jobs_to_run_after_success_witness :
  ~ In fresh_job
      (jobs_to_run [fresh_job]
         (fst (fst (save (job_with "J5b" "SUCCEEDED" 105) empty_table)))).
Proof.
  apply (jobs_to_run_after_success (job_with "J5b" "SUCCEEDED" 105) empty_table
           [fresh_job] fresh_job).
  - reflexivity.
  - reflexivity.
  - discriminate.
  - intros r [].
  - reflexivity.
Defined.

(** ** parse_job_description *)

Lemma parse_job_description_rev a_job_id jobs :
  parse_job_description a_job_id jobs =
  List.find (fun job => bool_decide (Some (jobId job) = a_job_id)) (List.rev jobs).
Proof.
  unfold parse_job_description.
  set (p := fun job => bool_decide (Some (jobId job) = a_job_id)).
  assert (H : forall acc,
             List.fold_left (fun job_desc job => if p job then Some job else job_desc)
               jobs acc =
             match List.find p (List.rev jobs) with
             | Some job => Some job
             | None => acc
             end).
  { induction jobs as [|job jobs IH]; intros acc; simpl; [reflexivity|].
    rewrite IH. clear IH. induction (List.rev jobs) as [|x l IHl]; simpl.
    - now destruct (p job).
    - now destruct (p x). }
  rewrite H. now destruct (List.find p (List.rev jobs)).
Qed.

(** The description that [parse_job_description] returns is an entry of the
    response with the job id asked for, the last one of them; it returns
    none exactly when no entry has that id. *)
Theorem parse_job_description_entry a_job_id jobs :
  (forall job_desc, parse_job_description a_job_id jobs = Some job_desc ->
     In job_desc jobs /\ Some (jobId job_desc) = a_job_id) /\
  (parse_job_description a_job_id jobs = None <->
     forall job, In job jobs -> Some (jobId job) <> a_job_id) /\
  (forall before job after,
     jobs = (before ++ job :: after)%list -> Some (jobId job) = a_job_id ->
     (forall other, In other after -> Some (jobId other) <> a_job_id) ->
     parse_job_description a_job_id jobs = Some job).
Proof.
  rewrite parse_job_description_rev. split; [|split].
  - intros job_desc H. apply List.find_some in H as [Hin Hp].
    apply List.in_rev in Hin. now apply bool_decide_eq_true in Hp.
  - split.
    + intros H job Hin Hid. apply List.in_rev in Hin.
      apply (List.find_none _ _ H) in Hin. simpl in Hin.
      now apply bool_decide_eq_false in Hin.
    + intros H. destruct (List.find _ (List.rev jobs)) as [job|] eqn:Hf;
        [|reflexivity].
      apply List.find_some in Hf as [Hin Hp]. apply List.in_rev in Hin.
      apply bool_decide_eq_true in Hp. now apply H in Hin.
  - intros before job after -> Hid Hafter.
    rewrite List.rev_app_distr. simpl. rewrite <- List.app_assoc.
    assert (Hnone : forall l k, (forall other, In other l ->
                       Some (jobId other) <> a_job_id) ->
              List.find (fun job => bool_decide (Some (jobId job) = a_job_id)) (l ++ k)
              = List.find (fun job => bool_decide (Some (jobId job) = a_job_id)) k).
    { induction l as [|x l IH]; intros k Hl; simpl; [reflexivity|].
      rewrite bool_decide_eq_false_2 by (apply Hl; now left).
      apply IH. intros other Ho. apply Hl. now right. }
    rewrite Hnone by (intros other Ho; apply Hafter; now apply List.in_rev).
    simpl. now rewrite bool_decide_eq_true_2.
Qed.

(** ** Calls that fail, and calls that are throttled and then answered *)

(** An error of the service that is not a throttle comes out of each
    adapter at once, after the one call. *)
Theorem client_errors_propagate response_success client config s code
    jobs a_job_id reason :
  1 <= retries config -> is_throttle code = false ->
  (submit_job client (st_calls s) (params (st_job s)) = Error code ->
   aio_batch_job_submit response_success client config s =
   (Raise (ClientError code), snd (api_call (SubmitJob (params (st_job s))) s))) /\
  (describe_jobs client (st_calls s) jobs = Error code ->
   aio_batch_job_status client config jobs s =
   (Raise (ClientError code), snd (api_call (DescribeJobs jobs) s))) /\
  (terminate_job client (st_calls s) a_job_id reason = Error code ->
   aio_batch_job_terminate client config a_job_id reason s =
   (Raise (ClientError code), snd (api_call (TerminateJob a_job_id reason) s))).
Proof.
  intros Hretries Hcode.
  unfold aio_batch_job_submit, aio_batch_job_status, aio_batch_job_terminate.
  destruct (Z.to_nat (retries config)) as [|fuel] eqn:Hfuel; [lia|].
  simpl. replace (0 <? retries config) with true by ltb_true.
  split; [|split]; intros Hreply;
    rewrite ?bind_get_job, bind_eq; cbn [api_call fst snd];
    now rewrite Hreply, Hcode.
Qed.

Lemma client_errors_propagate_witness :
  aio_batch_job_status (scripted_client [Failing "AccessDeniedException"])
    (config_of 5) [Some "J1"] (state_of fresh_job empty_table) =
  (Raise (ClientError (Some "AccessDeniedException")),
   snd (api_call (DescribeJobs [Some "J1"]) (state_of fresh_job empty_table))).
Proof.
  apply (client_errors_propagate http_success
           (scripted_client [Failing "AccessDeniedException"]) (config_of 5)
           (state_of fresh_job empty_table) (Some "AccessDeniedException")
           [Some "J1"] "J1" "stop").
  - simpl. lia.
  - reflexivity.
  - reflexivity.
Defined.

Lemma throttled_until_next {A} (reply : nat -> Reply A) start k :
  throttled_until reply start (S k) ->
  (exists code, reply start = Error code /\ is_throttle code = true) /\
  throttled_until reply (S start) k.
Proof.
  intros H. split.
  - destruct (H 0%nat ltac:(lia)) as (code & Hc). rewrite Nat.add_0_r in Hc. eauto.
  - intros i Hi. destruct (H (S i) ltac:(lia)) as (code & Hc).
    rewrite Nat.add_succ_r in Hc. eauto.
Qed.

Section Retried.
Variable response_success : SubmitResponse -> bool.
Variable client : Client.
Variable config : AWSBatchConfig.

Lemma status_loop_retried jobs response k :
  forall fuel tries s,
    throttled_until (fun i => describe_jobs client i jobs) (st_calls s) k ->
    describe_jobs client (st_calls s + k) jobs = Ok response ->
    tries + Z.of_nat k < retries config -> (k < fuel)%nat ->
    status_loop client config jobs fuel tries s =
    (Return response,
     after_retries (DescribeJobs jobs)
       (Jitter "batch-job-status" (min_jitter config) (max_jitter config))
       k (st_job s) s).
Proof.
  induction k as [|k IH]; intros fuel tries s Hthrottled Hok Htries Hfuel;
    (destruct fuel as [|fuel]; [lia|]); simpl;
    replace (tries <? retries config) with true by ltb_true;
    rewrite bind_eq; cbn [api_call fst snd].
  - rewrite Nat.add_0_r in Hok. rewrite Hok. unfold after_retries. simpl.
    do 3 f_equal. lia.
  - apply throttled_until_next in Hthrottled as ((code & Hcode & Hthrottle) & Hnext).
    rewrite Hcode, Hthrottle, bind_eq.
    replace (tries + 1 <? retries config) with true by ltb_true.
    cbn [jitter emit]. rewrite IH; cbn [st_calls]; try assumption; try lia.
    + unfold after_retries. simpl. f_equal. f_equal; [lia|].
      now rewrite <- !List.app_assoc.
    + now rewrite Nat.add_succ_l, <- Nat.add_succ_r.
Qed.

Lemma terminate_loop_retried a_job_id reason response k :
  forall fuel tries s,
    throttled_until (fun i => terminate_job client i a_job_id reason) (st_calls s) k ->
    terminate_job client (st_calls s + k) a_job_id reason = Ok response ->
    tries + Z.of_nat k < retries config -> (k < fuel)%nat ->
    terminate_loop client config a_job_id reason fuel tries s =
    (Return response,
     after_retries (TerminateJob a_job_id reason)
       (Jitter "batch-job-terminate" (min_jitter config) (max_jitter config))
       k (st_job s) s).
Proof.
  induction k as [|k IH]; intros fuel tries s Hthrottled Hok Htries Hfuel;
    (destruct fuel as [|fuel]; [lia|]); simpl;
    replace (tries <? retries config) with true by ltb_true;
    rewrite bind_eq; cbn [api_call fst snd].
  - rewrite Nat.add_0_r in Hok. rewrite Hok. unfold after_retries. simpl.
    do 3 f_equal. lia.
  - apply throttled_until_next in Hthrottled as ((code & Hcode & Hthrottle) & Hnext).
    rewrite Hcode, Hthrottle, bind_eq.
    replace (tries + 1 <? retries config) with true by ltb_true.
    cbn [jitter emit]. rewrite IH; cbn [st_calls]; try assumption; try lia.
    + unfold after_retries. simpl. f_equal. f_equal; [lia|].
      now rewrite <- !List.app_assoc.
    + now rewrite Nat.add_succ_l, <- Nat.add_succ_r.
Qed.

Lemma submit_loop_retried response k :
  forall fuel tries s,
    throttled_until (fun i => submit_job client i (params (st_job s))) (st_calls s) k ->
    submit_job client (st_calls s + k) (params (st_job s)) = Ok response ->
    tries + Z.of_nat k < retries config -> (k < fuel)%nat ->
    submit_loop response_success client config fuel tries s =
    (Return response,
     after_retries (SubmitJob (params (st_job s)))
       (Jitter "batch-job-submit" (min_jitter config) (max_jitter config))
       k (if response_success response
          then submitted (st_job s) response else st_job s) s).
Proof.
  induction k as [|k IH]; intros fuel tries s Hthrottled Hok Htries Hfuel;
    (destruct fuel as [|fuel]; [lia|]); simpl;
    replace (tries <? retries config) with true by ltb_true;
    rewrite bind_get_job, bind_eq; cbn [api_call fst snd].
  - rewrite Nat.add_0_r in Hok. rewrite Hok, bind_eq. unfold after_retries.
    destruct (response_success response); simpl; do 3 f_equal; lia.
  - apply throttled_until_next in Hthrottled as ((code & Hcode & Hthrottle) & Hnext).
    rewrite Hcode, Hthrottle, bind_eq.
    replace (tries + 1 <? retries config) with true by ltb_true.
    cbn [jitter emit]. rewrite IH; cbn [st_calls st_job]; try assumption; try lia.
    + unfold after_retries. simpl. f_equal. f_equal; [lia|].
      now rewrite <- !List.app_assoc.
    + now rewrite Nat.add_succ_l, <- Nat.add_succ_r.
Qed.
End Retried.

(** A call that is throttled [k] times, [k] less than [retries], and then
    answered returns the answer after [k + 1] calls with a jitter sleep
    after each throttled one; the submission records a successful response
    in the job, and nothing else changes. *)
Theorem throttled_calls_recover response_success client config s k
    jobs a_job_id reason :
  Z.of_nat k < retries config ->
  (forall response,
     throttled_until (fun i => submit_job client i (params (st_job s)))
       (st_calls s) k ->
     submit_job client (st_calls s + k) (params (st_job s)) = Ok response ->
     aio_batch_job_submit response_success client config s =
     (Return response,
      after_retries (SubmitJob (params (st_job s)))
        (Jitter "batch-job-submit" (min_jitter config) (max_jitter config)) k
        (if response_success response
         then submitted (st_job s) response else st_job s) s)) /\
  (forall response,
     throttled_until (fun i => describe_jobs client i jobs) (st_calls s) k ->
     describe_jobs client (st_calls s + k) jobs = Ok response ->
     aio_batch_job_status client config jobs s =
     (Return response,
      after_retries (DescribeJobs jobs)
        (Jitter "batch-job-status" (min_jitter config) (max_jitter config)) k
        (st_job s) s)) /\
  (forall response,
     throttled_until (fun i => terminate_job client i a_job_id reason)
       (st_calls s) k ->
     terminate_job client (st_calls s + k) a_job_id reason = Ok response ->
     aio_batch_job_terminate client config a_job_id reason s =
     (Return response,
      after_retries (TerminateJob a_job_id reason)
        (Jitter "batch-job-terminate" (min_jitter config) (max_jitter config)) k
        (st_job s) s)).
Proof.
  intros Hk. split; [|split]; intros response Hthrottled Hok.
  - apply submit_loop_retried; try assumption; lia.
  - apply status_loop_retried; try assumption; lia.
  - apply terminate_loop_retried; try assumption; lia.
Qed.

Lemma throttled_script_throttled p :
  throttled_until (fun i => submit_job (scripted_client throttled_script) i p) 0 2.
Proof.
  intros i Hi. exists (Some "TooManyRequestsException").
  destruct i as [|[|i]]; [now split..|lia].
Qed.

Lemma throttled_calls_recover_witness :
  aio_batch_job_submit http_success (scripted_client throttled_script)
    (config_of 3) (state_of fresh_job empty_table) =
  (Return {| resp_jobName := "t-0000"; resp_jobId := "J6";
             resp_HTTPStatusCode := 200 |},
   after_retries (SubmitJob (params fresh_job))
     (Jitter "batch-job-submit" 1 10) 2
     (submitted fresh_job
        {| resp_jobName := "t-0000"; resp_jobId := "J6";
           resp_HTTPStatusCode := 200 |})
     (state_of fresh_job empty_table)).
Proof.
  apply (throttled_calls_recover http_success (scripted_client throttled_script)
           (config_of 3) (state_of fresh_job empty_table) 2 [Some "J6"] "J6" "stop").
  - simpl. lia.
  - apply throttled_script_throttled.
  - reflexivity.
Defined.

(** ** What a submission does to the job *)

Lemma submit_loop_effect response_success client config fuel :
  forall tries s,
    let out := submit_loop response_success client config fuel tries s in
    st_db (snd out) = st_db s /\
    ((exists response,
        fst out = Return response /\ response_success response = true /\
        st_job (snd out) = submitted (st_job s) response) \/
     (st_job (snd out) = st_job s /\
      forall response, fst out = Return response ->
        response_success response = false)).
Proof.
  induction fuel as [|fuel IH]; intros tries s; simpl.
  - destruct (tries <? retries config); simpl;
      (split; [reflexivity | right; split; [reflexivity | discriminate]]).
  - destruct (tries <? retries config);
      [|simpl; split; [reflexivity | right; split; [reflexivity | discriminate]]].
    rewrite bind_get_job, bind_eq. cbn [api_call fst snd].
    destruct (submit_job client (st_calls s) (params (st_job s))) as [r|code].
    + rewrite bind_eq. destruct (response_success r) eqn:Hr; simpl.
      * split; [reflexivity|]. left. now exists r.
      * split; [reflexivity|]. right. split; [reflexivity|].
        intros response H. injection H as <-. exact Hr.
    + destruct (is_throttle code);
        [|simpl; split; [reflexivity | right; split; [reflexivity | discriminate]]].
      rewrite bind_eq.
      destruct (tries + 1 <? retries config); cbn [jitter emit mret M_ret m_ret];
        match goal with |- context [submit_loop _ _ _ _ _ ?s1] =>
          exact (IH (tries + 1) s1) end.
Qed.

(** A submission changes the job only when the service answers with a
    successful response: then the job takes the id of the response as its
    id and as its last try, counts one more try and keeps the response;
    in every other case (an error, exceeded retries, a response that is no
    success) the job stays as it was.  The database is never written. *)
Theorem submit_changes_job_on_success response_success client config s :
  let out := aio_batch_job_submit response_success client config s in
  st_db (snd out) = st_db s /\
  ((exists response,
      fst out = Return response /\ response_success response = true /\
      st_job (snd out) = submitted (st_job s) response /\
      job_id (st_job (snd out)) = Some (resp_jobId response) /\
      last (job_tries (st_job (snd out))) = Some (resp_jobId response) /\
      job_submission (st_job (snd out)) = Some response) \/
   (st_job (snd out) = st_job s /\
    forall response, fst out = Return response ->
      response_success response = false)).
Proof.
  intros out.
  destruct (submit_loop_effect response_success client config
              (Z.to_nat (retries config)) 0 s) as [Hdb Hjob].
  fold (aio_batch_job_submit response_success client config s) in Hdb, Hjob.
  split; [exact Hdb|].
  destruct Hjob as [(response & Hres & Hok & Hjob)|Hjob]; [left | now right].
  exists response. subst out. rewrite Hjob. simpl.
  repeat split; try assumption. apply last_snoc.
Qed.

(** ** Invariants of the tries *)

Lemma submitted_last_try job response : last_try_is_id (submitted job response).
Proof. intros i Hi. simpl in *. rewrite last_snoc. exact Hi. Qed.

Lemma aio_batch_job_manager_keeps_last_try response_success client config
    wfuel fuel s :
  keeps_last_try s
    (snd (aio_batch_job_manager response_success client config wfuel fuel s)).
Proof.
  apply (aio_batch_job_manager_preserves response_success client config
           keeps_last_try);
    try (step_frame; unfold keeps_last_try; now auto);
    try (step_frame; intros _; apply submitted_last_try);
    step_frame; intros _ i Hi; discriminate.
Qed.

Lemma aio_batch_job_submit_keeps_last_try response_success client config s :
  keeps_last_try s (snd (aio_batch_job_submit response_success client config s)).
Proof.
  apply (aio_batch_job_submit_preserves response_success client config
           keeps_last_try);
    try (step_frame; unfold keeps_last_try; now auto);
    step_frame; intros _; apply submitted_last_try.
Qed.

Lemma aio_batch_job_waiter_keeps_last_try client config fuel s :
  keeps_last_try s (snd (aio_batch_job_waiter client config fuel s)).
Proof.
  apply (aio_batch_job_waiter_preserves client config keeps_last_try);
    step_frame; unfold keeps_last_try; now auto.
Qed.

(** The id of a job is the last of its tries: this holds for a job built
    without an id, and from a state where it holds it holds after [reset],
    after a submission, after a wait and after a run of the manager. *)
Theorem id_stays_last_try response_success client config wfuel fuel
    name queue definition cmd deps overrides :
  last_try_is_id (default_AWSBatchJob name queue definition cmd deps overrides) /\
  forall s, last_try_is_id (st_job s) ->
    last_try_is_id (reset (st_job s)) /\
    last_try_is_id
      (st_job (snd (aio_batch_job_submit response_success client config s))) /\
    last_try_is_id (st_job (snd (aio_batch_job_waiter client config wfuel s))) /\
    last_try_is_id
      (st_job (snd (aio_batch_job_manager response_success client config
                      wfuel fuel s))).
Proof.
  split; [intros i Hi; discriminate|].
  intros s Hs. split; [intros i Hi; discriminate|].
  split; [now apply aio_batch_job_submit_keeps_last_try|].
  split; [now apply aio_batch_job_waiter_keeps_last_try|].
  now apply aio_batch_job_manager_keeps_last_try.
Qed.

Lemma id_stays_last_try_witness :
  last_try_is_id
    (st_job (snd (aio_batch_job_manager http_success (scripted_client spot_script)
                    (config_of 5) 3 3 spot_state))).
Proof.
  destruct (id_stays_last_try http_success (scripted_client spot_script)
              (config_of 5) 3 3 "t-0000" "batch-dev" "batch-dev" None None None)
    as [_ Hkept].
  apply (Hkept spot_state). intros i Hi. injection Hi as <-. reflexivity.
Defined.

Lemma bounds_tries_refl s : bounds_tries s s.
Proof. unfold bounds_tries. repeat split; (lia || auto). Qed.

Lemma bounds_tries_trans s1 s2 s3 :
  bounds_tries s1 s2 -> bounds_tries s2 s3 -> bounds_tries s1 s3.
Proof.
  unfold bounds_tries. intros (Hm1 & Hn1 & Hb1) (Hm2 & Hn2 & Hb2).
  repeat split; [congruence | lia | auto].
Qed.

Lemma bounds_tries_same_job s s' : st_job s' = st_job s -> bounds_tries s s'.
Proof. intros H. unfold bounds_tries. rewrite H. repeat split; (lia || auto). Qed.

Lemma aio_batch_job_waiter_bounds_tries client config fuel s :
  bounds_tries s (snd (aio_batch_job_waiter client config fuel s)).
Proof.
  apply (aio_batch_job_waiter_preserves client config bounds_tries);
    try apply bounds_tries_refl; try apply bounds_tries_trans;
    try (step_frame; now apply bounds_tries_same_job).
  step_frame. unfold bounds_tries, tries_bounded. simpl.
  repeat split; (lia || auto).
Qed.

Lemma submit_or_adopt_bounds_tries response_success client config s :
  num_tries (st_job s) < max_tries (st_job s) ->
  bounds_tries s (snd (submit_or_adopt response_success client config s)).
Proof.
  intros Hguard. unfold submit_or_adopt. rewrite bind_get_job.
  destruct (job_id (st_job s)); [apply bounds_tries_refl|].
  rewrite bind_eq.
  destruct (submit_loop_effect response_success client config
              (Z.to_nat (retries config)) 0 s) as [_ Hjob].
  fold (aio_batch_job_submit response_success client config s) in Hjob.
  assert (Hsub : bounds_tries s
                   (snd (aio_batch_job_submit response_success client config s))).
  { destruct Hjob as [(response & _ & _ & Hjob)|[Hjob _]].
    - unfold bounds_tries, tries_bounded. rewrite Hjob. simpl.
      repeat split; lia.
    - now apply bounds_tries_same_job. }
  destruct (aio_batch_job_submit response_success client config s)
    as [[response|e|] s1]; simpl in *; try exact Hsub.
  eapply bounds_tries_trans; [exact Hsub|].
  rewrite db_save_eq. now apply bounds_tries_same_job.
Qed.

(** A relation kept by the steps of the manager, and by the submission of
    a job that may still be tried, is kept by the manager. *)
Section Guarded.
Variable response_success : SubmitResponse -> bool.
Variable client : Client.
Variable config : AWSBatchConfig.
Variable R : State -> State -> Prop.
Hypothesis R_refl : forall s, R s s.
Hypothesis R_trans : forall s1 s2 s3, R s1 s2 -> R s2 s3 -> R s1 s3.
Hypothesis R_log : forall level msg, preserves R (log level msg).
Hypothesis R_save : preserves R db_save.
Hypothesis R_reset : forall s, R s (snd (set_job (reset (st_job s)) s)).
Hypothesis R_waiter :
  forall wfuel, preserves R (aio_batch_job_waiter client config wfuel).
Hypothesis R_submit_or_adopt :
  forall s, num_tries (st_job s) < max_tries (st_job s) ->
    R s (snd (submit_or_adopt response_success client config s)).

Lemma aio_batch_job_manager_guarded wfuel fuel :
  preserves R (aio_batch_job_manager response_success client config wfuel fuel).
Proof.
  induction fuel as [|fuel IH]; intros s; simpl; rewrite bind_get_job;
    (destruct (num_tries (st_job s) <? max_tries (st_job s)) eqn:Hguard;
     [|apply (preserves_step R R_trans); [apply R_log | intros; apply R_refl]]);
    [apply R_refl|].
  apply Z.ltb_lt in Hguard.
  apply (preserves_step R R_trans); [now apply R_submit_or_adopt|].
  intros [] s1 _.
  apply (preserves_step R R_trans); [apply R_waiter|].
  intros job_desc s2 _.
  apply (preserves_step R R_trans); [apply R_save|]. intros [] s3 _.
  destruct job_desc as [desc|]; [|apply R_refl].
  destruct (String.eqb (status desc) "SUCCEEDED"); [apply R_refl|].
  destruct (String.eqb (status desc) "FAILED"); [|apply IH].
  destruct (spot_failure desc); [|apply R_refl].
  apply (preserves_step R R_trans); [apply R_log|]. intros [] s4 _.
  rewrite bind_get_job.
  apply (preserves_step R R_trans); [apply R_reset|]. intros [] s5 _.
  apply (preserves_step R R_trans); [apply R_save|]. intros [] s6 _. apply IH.
Qed.
End Guarded.

Lemma aio_batch_job_manager_bounds_tries response_success client config
    wfuel fuel s :
  bounds_tries s
    (snd (aio_batch_job_manager response_success client config wfuel fuel s)).
Proof.
  apply (aio_batch_job_manager_guarded response_success client config
           bounds_tries bounds_tries_refl bounds_tries_trans).
  - step_frame. now apply bounds_tries_same_job.
  - step_frame. now apply bounds_tries_same_job.
  - step_frame. unfold bounds_tries, tries_bounded. simpl.
    repeat split; (lia || auto).
  - intros w s'. apply aio_batch_job_waiter_bounds_tries.
  - intros s'. apply submit_or_adopt_bounds_tries.
Qed.

(** The manager never tries a job more often than its [max_tries]: along
    a run the bound itself is not changed, the number of tries does not go
    down, and a job that was within its bound is still within it. *)
Theorem manager_keeps_tries_bounded response_success client config wfuel fuel s :
  tries_bounded (st_job s) ->
  let job' :=
    st_job (snd (aio_batch_job_manager response_success client config
                   wfuel fuel s)) in
  max_tries job' = max_tries (st_job s) /\
  num_tries (st_job s) <= num_tries job' <= max_tries (st_job s).
Proof.
  intros Hs job'.
  destruct (aio_batch_job_manager_bounds_tries response_success client config
              wfuel fuel s) as (Hmax & Hnum & Hbound).
  specialize (Hbound Hs). unfold tries_bounded in Hbound.
  subst job'. rewrite Hmax in Hbound. repeat split; assumption.
Qed.

Lemma manager_keeps_tries_bounded_witness :
  let job' :=
    st_job (snd (aio_batch_job_manager http_success (scripted_client spot_script)
                   (config_of 5) 3 3 spot_state)) in
  max_tries job' = 4 /\ 1 <= num_tries job' <= 4.
Proof.
  apply (manager_keeps_tries_bounded http_success (scripted_client spot_script)
           (config_of 5) 3 3 spot_state).
  unfold tries_bounded. simpl. lia.
Defined.

(** ** What the waiter returns and what it leaves as it is *)

Lemma parse_job_description_id a_job_id jobs job_desc :
  parse_job_description a_job_id jobs = Some job_desc ->
  Some (jobId job_desc) = a_job_id.
Proof.
  rewrite parse_job_description_rev. intros H.
  apply List.find_some in H as [_ Hp]. now apply bool_decide_eq_true in Hp.
Qed.

Lemma waiter_loop_final client config fuel :
  forall monitor_failures s job_desc s',
    waiter_loop client config fuel monitor_failures s = (Return (Some job_desc), s') ->
    str_in (status job_desc) ["FAILED"; "SUCCEEDED"] = true /\
    Some (jobId job_desc) = job_id (st_job s) /\
    job_description (st_job s') = Some job_desc /\
    job_status (st_job s') = Some (status job_desc).
Proof.
  induction fuel as [|fuel IH]; intros mf s job_desc s'; [simpl; discriminate|].
  cbn [waiter_loop]. rewrite bind_get_job, bind_eq.
  pose proof (status_loop_frame client config [job_id (st_job s)]
                (Z.to_nat (retries config)) 0 s) as [Hjob _].
  fold (aio_batch_job_status client config [job_id (st_job s)] s) in Hjob.
  destruct (aio_batch_job_status client config [job_id (st_job s)] s)
    as [[response|e|] s1]; [|discriminate..].
  simpl in Hjob.
  destruct (parse_job_description (job_id (st_job s)) response) as [d|] eqn:Hparse.
  - rewrite bind_eq. cbn [set_job fst snd].
    destruct (str_in (status d) ["FAILED"; "SUCCEEDED"]) eqn:Hfinal.
    + unfold mret, M_ret, m_ret. intros H. injection H as <- <-. simpl.
      repeat split; [exact Hfinal | now apply parse_job_description_id in Hparse].
    + rewrite bind_eq.
      destruct (str_in (status d) ["SUBMITTED"; "PENDING"; "RUNNABLE"]);
        cbn [delay emit mret M_ret m_ret fst snd]; rewrite bind_eq;
        cbn [delay emit fst snd]; intros H; apply IH in H; exact H.
  - rewrite bind_eq. cbn [log emit fst snd].
    destruct (retries config <? mf + 1).
    + rewrite bind_eq. cbn [log emit]. discriminate.
    + rewrite bind_eq. cbn [delay emit fst snd]. intros H. apply IH in H.
      simpl in H. now rewrite Hjob in H.
Qed.

Lemma waiter_returns_final_id client config fuel s job_desc s' :
  aio_batch_job_waiter client config fuel s = (Return (Some job_desc), s') ->
  Some (jobId job_desc) = job_id (st_job s) /\
  job_status (st_job s') = Some (status job_desc).
Proof.
  unfold aio_batch_job_waiter, try_except. intros H.
  destruct (waiter_loop client config fuel 0 s) as [[r|e|] s1] eqn:Hloop.
  - injection H as -> ->. apply waiter_loop_final in Hloop
      as (_ & Hid & _ & Hstatus). now split.
  - destruct e; simpl in H; discriminate.
  - discriminate.
Qed.

(** A description that the waiter returns is final: its status is FAILED
    or SUCCEEDED, its id is the id of the job, and it is the description
    and the status that the job holds after the wait. *)
Theorem waiter_returns_final_description client config fuel s job_desc s' :
  aio_batch_job_waiter client config fuel s = (Return (Some job_desc), s') ->
  (status job_desc = "FAILED" \/ status job_desc = "SUCCEEDED") /\
  job_id (st_job s) = Some (jobId job_desc) /\
  job_description (st_job s') = Some job_desc /\
  job_status (st_job s') = Some (status job_desc).
Proof.
  unfold aio_batch_job_waiter, try_except. intros H.
  destruct (waiter_loop client config fuel 0 s) as [[r|e|] s1] eqn:Hloop.
  - injection H as -> ->. apply waiter_loop_final in Hloop
      as (Hfinal & Hid & Hdesc & Hstatus).
    repeat split; try assumption; try congruence.
    unfold str_in in Hfinal. simpl in Hfinal.
    destruct (String.eqb_spec (status job_desc) "FAILED"); [now left|].
    destruct (String.eqb_spec (status job_desc) "SUCCEEDED"); [now right|].
    discriminate.
  - destruct e; simpl in H; discriminate.
  - discriminate.
Qed.

Lemma waiter_returns_final_description_witness :
  (status dependent_desc = "FAILED" \/ status dependent_desc = "SUCCEEDED") /\
  job_id (st_job dependent_state) = Some (jobId dependent_desc) /\
  job_description
    (st_job (snd (aio_batch_job_waiter (scripted_client dependent_script)
                    (config_of 5) 3 dependent_state))) = Some dependent_desc /\
  job_status
    (st_job (snd (aio_batch_job_waiter (scripted_client dependent_script)
                    (config_of 5) 3 dependent_state))) =
  Some (status dependent_desc).
Proof.
  apply (waiter_returns_final_description (scripted_client dependent_script)
           (config_of 5) 3 dependent_state dependent_desc).
  reflexivity.
Defined.

Lemma same_but_description_refl job : same_but_description job job.
Proof. now destruct job. Qed.

Lemma same_but_description_trans job1 job2 job3 :
  same_but_description job1 job2 -> same_but_description job2 job3 ->
  same_but_description job1 job3.
Proof.
  unfold same_but_description. intros H12 H23. rewrite H23 at 1.
  rewrite H12. reflexivity.
Qed.

Lemma watches_refl s : watches s s.
Proof. unfold watches. repeat split. apply same_but_description_refl. Qed.

Lemma watches_trans s1 s2 s3 : watches s1 s2 -> watches s2 s3 -> watches s1 s3.
Proof.
  unfold watches. intros (Hj1 & Hd1 & Hs1 & Ht1) (Hj2 & Hd2 & Hs2 & Ht2).
  repeat split; try congruence.
  eapply same_but_description_trans; eassumption.
Qed.

Lemma aio_batch_job_waiter_watches client config fuel s :
  watches s (snd (aio_batch_job_waiter client config fuel s)).
Proof.
  apply (aio_batch_job_waiter_preserves client config watches);
    try apply watches_refl; try apply watches_trans;
    step_frame; unfold watches; cbn [st_job st_db st_trace];
    rewrite ?count_events_app; unfold count_events; simpl;
    repeat split; try lia; try apply same_but_description_refl.
Qed.

(** A wait changes nothing of the job but its status and its description,
    does not write to the database, and makes no call that submits or
    terminates a job, whatever the service answers and however the wait
    ends. *)
Theorem waiter_only_watches client config fuel s :
  let s' := snd (aio_batch_job_waiter client config fuel s) in
  same_but_description (st_job s) (st_job s') /\
  st_db s' = st_db s /\
  count_events is_submit (st_trace s') = count_events is_submit (st_trace s) /\
  count_events is_terminate (st_trace s') =
  count_events is_terminate (st_trace s).
Proof. exact (aio_batch_job_waiter_watches client config fuel s). Qed.

(** ** A wait from its first poll to the final description *)

Lemma described_polled obs : forall job job_desc,
  described (polled job obs) job_desc = described job job_desc.
Proof.
  induction obs as [|o obs IH]; intros job job_desc; [reflexivity|].
  unfold polled. simpl. fold (polled (match o with
                                      | Some d => described job d
                                      | None => job
                                      end) obs).
  rewrite IH. now destruct o.
Qed.

Lemma waiter_loop_run client config obs :
  forall monitor_failures s n,
    1 <= retries config ->
    polls client (job_id (st_job s)) (st_calls s) obs ->
    pending obs ->
    monitor_failures + Z.of_nat (count_misses obs) <= retries config ->
    waiter_loop client config (length obs + n) monitor_failures s =
    waiter_loop client config n
      (monitor_failures + Z.of_nat (count_misses obs))
      {| st_job := polled (st_job s) obs; st_db := st_db s;
         st_calls := st_calls s + length obs;
         st_trace := st_trace s ++ flat_map (poll_events config (st_job s)) obs |}.
Proof.
  induction obs as [|o obs IH]; intros mf s n Hretries Hpolls Hpending Hmf.
  - simpl. now rewrite Z.add_0_r, <- state_eta.
  - apply polls_cons in Hpolls as ((response & Hdesc & Hparse) & Hpolls).
    apply pending_cons in Hpending as (Hstatus & Hpending).
    rewrite count_misses_cons in *.
    cbn [length Nat.add waiter_loop].
    rewrite bind_get_job, bind_eq.
    rewrite (aio_batch_job_status_ok _ _ _ response s Hretries Hdesc).
    rewrite Hparse. destruct o as [d|]; cbn [is_miss] in *.
    + rewrite bind_eq. cbn [set_job fst snd st_job st_db st_calls st_trace].
      rewrite (Hstatus d eq_refl). rewrite bind_eq.
      cbn [flat_map]. unfold poll_events at 1.
      destruct (str_in (status d) ["SUBMITTED"; "PENDING"; "RUNNABLE"]);
        cbn [delay emit mret M_ret m_ret]; rewrite bind_eq; cbn [delay emit];
        (rewrite IH; [|exact Hretries|exact Hpolls|exact Hpending|simpl; lia]);
        cbn [st_job st_db st_calls st_trace fst snd];
        f_equal; try lia; f_equal; try reflexivity; try lia;
        simpl; now rewrite <- !List.app_assoc.
    + rewrite bind_eq. cbn [log emit].
      replace (retries config <? mf + 1) with false by ltb_false.
      rewrite bind_eq. cbn [delay emit flat_map]. unfold poll_events at 1.
      rewrite IH; [|exact Hretries|exact Hpolls|exact Hpending|simpl; lia].
      cbn [st_job st_db st_calls st_trace fst snd].
      f_equal; try lia; f_equal; try reflexivity; try lia.
      simpl. now rewrite <- !List.app_assoc.
Qed.

(** The waiter returns the first final description it sees.  When the
    polls are answered with [seen], descriptions that are not final and at
    most [retries] misses, and then with a description that is FAILED or
    SUCCEEDED, a wait with enough fuel returns that description after one
    call for each poll; it has slept after each poll of [seen], twice
    after a job not yet started, and not after the last; the job holds the
    final description and the database is as it was. *)
Theorem waiter_returns_first_final client config s seen job_desc fuel :
  1 <= retries config ->
  polls client (job_id (st_job s)) (st_calls s) (seen ++ [Some job_desc]) ->
  pending seen ->
  Z.of_nat (count_misses seen) <= retries config ->
  status job_desc = "FAILED" \/ status job_desc = "SUCCEEDED" ->
  (length seen < fuel)%nat ->
  aio_batch_job_waiter client config fuel s =
  (Return (Some job_desc),
   {| st_job := described (st_job s) job_desc; st_db := st_db s;
      st_calls := st_calls s + length seen + 1;
      st_trace := st_trace s ++
        flat_map (poll_events config (st_job s)) seen ++
        [DescribeJobs [job_id (st_job s)]] |}).
Proof.
  intros Hretries Hpolls Hpending Hmisses Hfinal Hfuel.
  apply polls_app in Hpolls as (Hseen & Hlast).
  apply waiter_of_loop.
  replace fuel with (length seen + S (fuel - length seen - 1))%nat by lia.
  rewrite waiter_loop_run; [|assumption|assumption|assumption|lia].
  destruct (Hlast 0%nat (Some job_desc) eq_refl) as (response & Hdesc & Hparse).
  rewrite Nat.add_0_r in Hdesc.
  cbn [waiter_loop]. rewrite bind_get_job, bind_eq.
  assert (Hid : job_id (polled (st_job s) seen) = job_id (st_job s)).
  { change (job_id (described (polled (st_job s) seen) job_desc) =
            job_id (described (st_job s) job_desc)).
    now rewrite described_polled. }
  cbn [st_job]. rewrite Hid.
  match goal with |- context [aio_batch_job_status _ _ _ ?s1] =>
    rewrite (aio_batch_job_status_ok client config [job_id (st_job s)]
               response s1 Hretries Hdesc) end.
  rewrite Hparse, bind_eq. cbn [set_job fst snd st_job st_db st_calls st_trace].
  replace (str_in (status job_desc) ["FAILED"; "SUCCEEDED"]) with true
    by (now destruct Hfinal as [-> | ->]).
  unfold mret, M_ret, m_ret. rewrite described_polled.
  f_equal. f_equal; [lia|]. now rewrite <- List.app_assoc.
Qed.

Lemma recovery_script_polls :
  polls (scripted_client recovery_script) (Some "J1") 0
    (recovery_obs ++ [Some (desc_of "J1" "SUCCEEDED" None 100)]).
Proof.
  intros k o Hk. destruct k as [|[|[|k]]]; simpl in Hk.
  - injection Hk as <-. now eexists.
  - injection Hk as <-. now eexists.
  - injection Hk as <-. now eexists.
  - now destruct k.
Qed.

Lemma waiter_returns_first_final_witness :
  aio_batch_job_waiter (scripted_client recovery_script) (config_of 1) 3
    (state_of (submitted_job "J1") empty_table) =
  (Return (Some (desc_of "J1" "SUCCEEDED" None 100)),
   {| st_job := described (submitted_job "J1") (desc_of "J1" "SUCCEEDED" None 100);
      st_db := empty_table;
      st_calls := 3;
      st_trace :=
        [DescribeJobs [Some "J1"]; Delay "t-0000" 30 (30 * 2)%Q; Delay "t-0000" 10 30;
         DescribeJobs [Some "J1"];
         Log WARNING "AWS Batch job (%s:%s) has no description";
         Delay "t-0000" 10 30;
         DescribeJobs [Some "J1"]] |}).
Proof.
  apply (waiter_returns_first_final (scripted_client recovery_script) (config_of 1)
           (state_of (submitted_job "J1") empty_table) recovery_obs
           (desc_of "J1" "SUCCEEDED" None 100) 3).
  - simpl. lia.
  - exact recovery_script_polls.
  - intros d [Hd|[Hd|[]]]; [|discriminate]. injection Hd as <-. reflexivity.
  - unfold recovery_obs, count_misses. simpl. lia.
  - now right.
  - unfold recovery_obs. simpl. lia.
Defined.

(** ** The manager: errors, success and the reasons of a retry *)

(** When the service throttles every call, the manager fails with the error
    of exceeded retries: of the submission for a job without an id, of the
    description for a job with one.  It has made [retries] calls, and the
    job and the database are as they were: nothing is saved and the job is
    not reset. *)
Theorem manager_surfaces_exceeded_retries response_success client config
    wfuel fuel s :
  1 <= retries config ->
  always_throttles client ->
  num_tries (st_job s) < max_tries (st_job s) ->
  let out :=
    aio_batch_job_manager response_success client config (S wfuel) (S fuel) s in
  fst out =
    Raise (RuntimeError
             match job_id (st_job s) with
             | None => "AWS Batch job submission exceeded retries"
             | Some _ => "AWS Batch job description exceeded retries"
             end) /\
  st_job (snd out) = st_job s /\
  st_db (snd out) = st_db s /\
  st_calls (snd out) = (st_calls s + Z.to_nat (retries config))%nat.
Proof.
  intros Hretries Hthrottles Htries out.
  assert (Hout : exists evs,
            out =
            (Raise (RuntimeError
                      match job_id (st_job s) with
                      | None => "AWS Batch job submission exceeded retries"
                      | Some _ => "AWS Batch job description exceeded retries"
                      end),
             {| st_job := st_job s; st_db := st_db s;
                st_calls := st_calls s + Z.to_nat (retries config);
                st_trace := st_trace s ++ evs |})).
  { subst out. cbn [aio_batch_job_manager]. rewrite bind_get_job.
    replace (num_tries (st_job s) <? max_tries (st_job s)) with true by ltb_true.
    rewrite bind_eq. unfold submit_or_adopt. rewrite bind_get_job.
    destruct (job_id (st_job s)) as [i|] eqn:Hid.
    - unfold mret at 1, M_ret, m_ret. rewrite bind_eq.
      unfold aio_batch_job_waiter, try_except. cbn [waiter_loop].
      rewrite bind_get_job, bind_eq. unfold aio_batch_job_status.
      rewrite (status_loop_throttled client config Hthrottles) by lia.
      eexists. reflexivity.
    - rewrite bind_eq. unfold aio_batch_job_submit.
      rewrite (submit_loop_throttled response_success client config Hthrottles)
        by lia.
      eexists. reflexivity. }
  destruct Hout as [evs ->]. now repeat split.
Qed.

Lemma manager_surfaces_exceeded_retries_witness :
  let out :=
    aio_batch_job_manager http_success throttling_client (config_of 5) 1 1
      (state_of fresh_job empty_table) in
  fst out = Raise (RuntimeError "AWS Batch job submission exceeded retries") /\
  st_job (snd out) = fresh_job /\
  st_db (snd out) = empty_table /\
  st_calls (snd out) = 5%nat.
Proof.
  apply (manager_surfaces_exceeded_retries http_success throttling_client
           (config_of 5) 0 0 (state_of fresh_job empty_table)).
  - simpl. lia.
  - exact throttling_client_throttles.
  - simpl. lia.
Defined.

Lemma save_found job db :
  truthy (job_id job) = true ->
  snd <$> find_by_job_id (fst (fst (save job db))) (job_id job) =
  Some (db_data job).
Proof.
  intros Hid. pose proof (save_effect job db) as H. simpl in H.
  rewrite Hid in H. destruct H as ((ids & _ & Hne & Hids) & Hall & _).
  unfold find_by_job_id. rewrite Hid, get_hd_search.
  destruct (tdb_search (query_job_id (job_id job)) (save job db).1.1) as [|r rs].
  - simpl in Hids. contradiction.
  - inversion Hall as [|? ? Hr _]; subst. simpl. now rewrite Hr.
Qed.

(** When the wait ends with a SUCCEEDED description, the manager saves the
    job and returns the description.  The row of the job in the database
    then holds the job as it is, with the status SUCCEEDED, so that
    [jobs_to_run] does not select the job again; and a job that came with
    an id was not submitted anew. *)
Theorem manager_returns_succeeded response_success client config wfuel fuel
    s s0 s1 job_desc :
  num_tries (st_job s) < max_tries (st_job s) ->
  submit_or_adopt response_success client config s = (Return tt, s0) ->
  aio_batch_job_waiter client config wfuel s0 = (Return (Some job_desc), s1) ->
  status job_desc = "SUCCEEDED" ->
  jobId job_desc <> "" ->
  let out :=
    aio_batch_job_manager response_success client config wfuel (S fuel) s in
  out = (Return (Some job_desc), snd (db_save s1)) /\
  job_id (st_job (snd out)) = Some (jobId job_desc) /\
  job_status (st_job (snd out)) = Some "SUCCEEDED" /\
  snd <$> find_by_job_id (st_db (snd out)) (Some (jobId job_desc)) =
    Some (db_data (st_job (snd out))) /\
  jobs_to_run [st_job (snd out)] (st_db (snd out)) = [] /\
  (job_id (st_job s) <> None ->
   count_events is_submit (st_trace (snd out)) =
   count_events is_submit (st_trace s)).
Proof.
  intros Htries Hsubmit Hwait Hstatus Hid out.
  assert (Hout : out = (Return (Some job_desc), snd (db_save s1))).
  { subst out. cbn [aio_batch_job_manager]. rewrite bind_get_job.
    replace (num_tries (st_job s) <? max_tries (st_job s)) with true by ltb_true.
    rewrite bind_eq, Hsubmit, bind_eq, Hwait, bind_eq, db_save_eq.
    now rewrite Hstatus. }
  pose proof (aio_batch_job_waiter_watches client config wfuel s0) as Hwatch.
  rewrite Hwait in Hwatch. cbn [snd] in Hwatch.
  destruct Hwatch as (Hsame & _ & Hcount & _). unfold same_but_description in Hsame.
  apply waiter_returns_final_id in Hwait as (Hjid & Hjst).
  assert (Hjid1 : job_id (st_job s1) = Some (jobId job_desc)).
  { rewrite Hsame. simpl. congruence. }
  rewrite Hout, db_save_eq. cbn [fst snd st_job st_db st_trace].
  split; [reflexivity|]. split; [exact Hjid1|].
  split; [now rewrite Hjst, Hstatus|]. split; [|split].
  - rewrite <- Hjid1. apply save_found. rewrite Hjid1. simpl.
    now destruct (jobId job_desc).
  - assert (Hs : succeeded (st_job s1) = true).
    { unfold succeeded. rewrite Hjid1, Hjst, Hstatus. simpl.
      now destruct (jobId job_desc). }
    rewrite jobs_to_run_filter. cbn [List.filter]. rewrite Hs. cbn [negb].
    now rewrite andb_false_r.
  - intros Hadopted. unfold submit_or_adopt in Hsubmit.
    rewrite bind_get_job in Hsubmit.
    destruct (job_id (st_job s)); [|contradiction].
    injection Hsubmit as <-.
    rewrite count_events_app, Hcount.
    assert (Hlogs : forall logged : list LogRecord,
              count_events is_submit
                (List.map (fun r => Log (fst r) (snd r)) logged) = 0%nat).
    { induction logged as [|r logged IH]; [reflexivity|exact IH]. }
    rewrite Hlogs. lia.
Qed.

Lemma manager_returns_succeeded_witness :
  let out :=
    aio_batch_job_manager http_success (scripted_client throttled_script)
      (config_of 3) 3 1 (state_of fresh_job empty_table) in
  fst out = Return (Some (desc_of "J6" "SUCCEEDED" None 100)) /\
  job_id (st_job (snd out)) = Some "J6" /\
  job_status (st_job (snd out)) = Some "SUCCEEDED" /\
  jobs_to_run [st_job (snd out)] (st_db (snd out)) = [].
Proof.
  destruct (manager_returns_succeeded http_success
              (scripted_client throttled_script) (config_of 3) 3 0
              (state_of fresh_job empty_table)
              (snd (submit_or_adopt http_success (scripted_client throttled_script)
                      (config_of 3) (state_of fresh_job empty_table)))
              (snd (aio_batch_job_waiter (scripted_client throttled_script)
                      (config_of 3) 3
                      (snd (submit_or_adopt http_success
                              (scripted_client throttled_script) (config_of 3)
                              (state_of fresh_job empty_table)))))
              (desc_of "J6" "SUCCEEDED" None 100))
    as (Hout & Hid & Hstatus & _ & Hrun & _).
  - simpl. lia.
  - reflexivity.
  - reflexivity.
  - reflexivity.
  - discriminate.
  - rewrite Hout in *. repeat split; assumption.
Defined.

(** After a SPOT failure the manager goes round its loop with the job
    reset.  The database then holds the failed try, under its id and with
    the status FAILED; the second save of that round, of the job just
    reset, writes nothing, since the job has no id any more, and logs the
    error of a job without an id. *)
Theorem spot_retry_saves_failed_try response_success client config wfuel fuel
    s s0 s1 job_desc :
  num_tries (st_job s) < max_tries (st_job s) ->
  submit_or_adopt response_success client config s = (Return tt, s0) ->
  aio_batch_job_waiter client config wfuel s0 = (Return (Some job_desc), s1) ->
  status job_desc = "FAILED" ->
  spot_failure job_desc = true ->
  jobId job_desc <> "" ->
  let db' := fst (fst (save (st_job s1) (st_db s1))) in
  aio_batch_job_manager response_success client config wfuel (S fuel) s =
  aio_batch_job_manager response_success client config wfuel fuel
    {| st_job := reset (st_job s1); st_db := db'; st_calls := st_calls s1;
       st_trace := st_trace s1 ++
         [Log WARNING "AWS Batch job (%s:%s) SPOT failure, run retry.";
          Log ERROR "FAIL to save job without job_id"] |} /\
  snd <$> find_by_job_id db' (Some (jobId job_desc)) = Some (db_data (st_job s1)) /\
  doc_status (db_data (st_job s1)) = Some "FAILED".
Proof.
  intros Htries Hsubmit Hwait Hstatus Hspot Hid db'.
  pose proof (aio_batch_job_waiter_watches client config wfuel s0) as Hwatch.
  rewrite Hwait in Hwatch. cbn [snd] in Hwatch.
  destruct Hwatch as (Hsame & _). unfold same_but_description in Hsame.
  pose proof Hwait as Hfinal.
  apply waiter_returns_final_id in Hfinal as (Hjid & Hjst).
  assert (Hjid1 : job_id (st_job s1) = Some (jobId job_desc)).
  { rewrite Hsame. simpl. congruence. }
  assert (Htruthy : truthy (job_id (st_job s1)) = true).
  { rewrite Hjid1. simpl. now destruct (jobId job_desc). }
  pose proof (save_effect (st_job s1) (st_db s1)) as Hsave. simpl in Hsave.
  rewrite Htruthy in Hsave. destruct Hsave as ((ids & Hsave & _) & _).
  split; [|split].
  - cbn [aio_batch_job_manager]. rewrite bind_get_job.
    replace (num_tries (st_job s) <? max_tries (st_job s)) with true by ltb_true.
    rewrite bind_eq, Hsubmit, bind_eq, Hwait, bind_eq, db_save_eq, Hstatus.
    cbn [String.eqb Ascii.eqb Bool.eqb]. rewrite Hspot.
    rewrite bind_eq. cbn [log emit]. rewrite bind_get_job, bind_eq.
    cbn [set_job fst snd st_job st_db st_calls st_trace].
    rewrite bind_eq, db_save_eq. cbn [st_job st_db st_calls st_trace].
    rewrite Hsave. cbn [fst snd List.map]. rewrite List.app_nil_r.
    unfold save. cbn [reset job_id truthy fst snd List.map].
    now rewrite <- List.app_assoc.
  - subst db'. rewrite <- Hjid1. now apply save_found.
  - unfold db_data. cbn. now rewrite Hjst, Hstatus.
Qed.

Lemma spot_retry_saves_failed_try_witness :
  let s1 := snd (aio_batch_job_waiter (scripted_client spot_script) (config_of 5)
                   3 spot_state) in
  let db' := fst (fst (save (st_job s1) (st_db s1))) in
  aio_batch_job_manager http_success (scripted_client spot_script) (config_of 5)
    3 3 spot_state =
  aio_batch_job_manager http_success (scripted_client spot_script) (config_of 5)
    3 2
    {| st_job := reset (st_job s1); st_db := db'; st_calls := st_calls s1;
       st_trace := st_trace s1 ++
         [Log WARNING "AWS Batch job (%s:%s) SPOT failure, run retry.";
          Log ERROR "FAIL to save job without job_id"] |} /\
  snd <$> find_by_job_id db' (Some "J3a") = Some (db_data (st_job s1)) /\
  doc_status (db_data (st_job s1)) = Some "FAILED".
Proof.
  apply (spot_retry_saves_failed_try http_success (scripted_client spot_script)
           (config_of 5) 3 2 spot_state spot_state
           (snd (aio_batch_job_waiter (scripted_client spot_script) (config_of 5)
                   3 spot_state))
           spot_desc).
  - simpl. lia.
  - reflexivity.
  - reflexivity.
  - reflexivity.
  - reflexivity.
  - discriminate.
Defined.

(** The manager takes a FAILED description for a SPOT failure exactly when
    it has a [statusReason] that begins with [Host EC2] and goes on, with
    no newline in between, to [terminated]; what follows does not matter,
    and a description without a reason is no SPOT failure. *)
Theorem spot_failure_reasons job_desc :
  spot_failure job_desc = true <->
  exists middle rest,
    statusReason job_desc =
      Some ("Host EC2" ++ middle ++ "terminated" ++ rest) /\
    no_newline middle = true.
Proof.
  unfold spot_failure. destruct (statusReason job_desc) as [reason|].
  - rewrite spot_pattern_matches. split.
    + intros (middle & rest & -> & Hm). now exists middle, rest.
    + intros (middle & rest & Hr & Hm). injection Hr as ->.
      now exists middle, rest.
  - split; [discriminate|]. intros (middle & rest & Hr & _). discriminate.
Qed.

(** ** The parameters of the submissions *)

Lemma same_submissions_refl s : same_submissions s s.
Proof.
  split; [reflexivity|]. exists []. split; [now rewrite List.app_nil_r|constructor].
Qed.

Lemma same_submissions_trans s1 s2 s3 :
  same_submissions s1 s2 -> same_submissions s2 s3 -> same_submissions s1 s3.
Proof.
  intros (Hp1 & e1 & Ht1 & Hf1) (Hp2 & e2 & Ht2 & Hf2).
  split; [congruence|]. exists (e1 ++ e2)%list. split.
  - now rewrite Ht2, Ht1, List.app_assoc.
  - apply List.Forall_app. split; [exact Hf1|]. now rewrite <- Hp1.
Qed.

Lemma same_submissions_step s s' evs :
  params (st_job s') = params (st_job s) ->
  st_trace s' = (st_trace s ++ evs)%list ->
  List.Forall (fun e => is_submit e = true -> e = SubmitJob (params (st_job s))) evs ->
  same_submissions s s'.
Proof. intros Hp Ht Hf. split; [exact Hp|]. now exists evs. Qed.

Ltac same_submissions_frame :=
  step_frame;
  first
    [ eapply (same_submissions_step _ _ []);
      [reflexivity | cbn [st_trace]; now rewrite List.app_nil_r | constructor]
    | eapply same_submissions_step;
      [reflexivity | reflexivity | repeat constructor; discriminate] ].

Lemma db_save_same_submissions : preserves same_submissions db_save.
Proof.
  intros s. rewrite db_save_eq.
  eapply same_submissions_step; [reflexivity | reflexivity |].
  induction (snd (save (st_job s) (st_db s))) as [|r l IH]; constructor;
    [discriminate | exact IH].
Qed.

Lemma aio_batch_job_waiter_same_submissions client config fuel :
  preserves same_submissions (aio_batch_job_waiter client config fuel).
Proof.
  intros s.
  apply (aio_batch_job_waiter_preserves client config same_submissions);
    try apply same_submissions_refl; try apply same_submissions_trans;
    same_submissions_frame.
Qed.

Lemma submit_loop_same_submissions response_success client config fuel :
  forall tries,
    preserves same_submissions
      (submit_loop response_success client config fuel tries).
Proof.
  pose proof same_submissions_trans as Htrans.
  induction fuel as [|fuel IH]; intros tries s; simpl.
  - destruct (tries <? retries config); apply same_submissions_refl.
  - destruct (tries <? retries config); [|apply same_submissions_refl].
    rewrite bind_get_job.
    apply (preserves_step same_submissions Htrans).
    + step_frame.
      apply (same_submissions_step _ _ [SubmitJob (params (st_job s))]);
        [reflexivity | reflexivity | now repeat constructor].
    + intros i s' E. injection E as <- <-.
      destruct (submit_job client (st_calls s) (params (st_job s)))
        as [response|code].
      * apply (preserves_step same_submissions Htrans).
        -- destruct (response_success response);
             [same_submissions_frame | apply same_submissions_refl].
        -- intros [] s'' _. apply same_submissions_refl.
      * destruct (is_throttle code); [|apply same_submissions_refl].
        apply (preserves_step same_submissions Htrans); [|intros; apply IH].
        destruct (tries + 1 <? retries config);
          [same_submissions_frame | apply same_submissions_refl].
Qed.

Lemma submit_or_adopt_same_submissions response_success client config :
  preserves same_submissions (submit_or_adopt response_success client config).
Proof.
  intros s. unfold submit_or_adopt. rewrite bind_get_job.
  destruct (job_id (st_job s)); [apply same_submissions_refl|].
  apply (preserves_step same_submissions same_submissions_trans).
  - apply submit_loop_same_submissions.
  - intros r s' _. apply db_save_same_submissions.
Qed.

(** Every submission that the manager makes carries the parameters the job
    had at the start: a retry after a SPOT failure submits the same name,
    queue, definition, overrides and dependencies again, and the job ends
    with these parameters. *)
Theorem manager_submits_same_params response_success client config wfuel fuel s :
  let s' :=
    snd (aio_batch_job_manager response_success client config wfuel fuel s) in
  params (st_job s') = params (st_job s) /\
  exists evs : list Event,
    st_trace s' = (st_trace s ++ evs)%list /\
    forall p, In (SubmitJob p) evs -> p = params (st_job s).
Proof.
  intros s'.
  assert (H : same_submissions s s').
  { apply (aio_batch_job_manager_guarded response_success client config
             same_submissions same_submissions_refl same_submissions_trans).
    - intros level msg s0. same_submissions_frame.
    - apply db_save_same_submissions.
    - intros s0. same_submissions_frame.
    - intros w. apply aio_batch_job_waiter_same_submissions.
    - intros s0 _. apply submit_or_adopt_same_submissions. }
  destruct H as (Hp & evs & Ht & Hf). split; [exact Hp|].
  exists evs. split; [exact Ht|]. intros p Hin.
  apply (proj1 (List.Forall_forall _ _) Hf) in Hin; [|reflexivity].
  now injection Hin.
Qed.
